(** * infra-kit: rate limiting and distributed locking over a shared store

    A shallow embedding of [src/lock/index.ts] (acquireLock, releaseLock,
    extendLock, withLock), [src/rate-limit/index.ts] (checkRateLimit,
    resetRateLimit, createRateLimiter) and of the part of [src/config.ts]
    they use (getCacheClient), together with a model of the store commands
    and of the server-side scripts these functions submit.

    Numbers are integers ([Z]); times are milliseconds since the epoch.
    The store is one key space ([gmap string entry]) whose values are
    either strings or sorted sets, each with an optional absolute expiry.
    Client code runs in a state-and-exception monad over a [world]: the
    store, the clock, the module-level client handle of [config.ts] and a
    chronological log of what the code did (requests sent, timers, calls
    of the user callback).  A request is executed by the store, in one
    piece, at the instant it is sent, and the store reads the same clock
    as the client.  In [Lock] and [RateLimit] a call runs alone: no
    other client intervenes while it waits for the store.  What other
    clients may do is covered by the histories of requests at the end of
    the definitions, and [Interleaved.checkRateLimit] is [checkRateLimit]
    with what reaches the store during its two waits made explicit. *)

From Stdlib Require Import ZArith String Ascii List Lia Bool.
From Stdlib Require Import DecimalString DecimalPos DecimalZ.
From stdpp Require Import base option gmap strings list.

Open Scope Z_scope.

(** ** Strings and numbers as JavaScript and Lua render them *)

(** Decimal rendering of an integer: [`${n}`] in JavaScript. *)
Definition dec (n : Z) : string := NilZero.string_of_int (Z.to_int n).

(** [s.substring(n)]: drop the first [n] characters. *)
Fixpoint substring_from (n : nat) (s : string) : string :=
  match n, s with
  | O, _ => s
  | S _, EmptyString => EmptyString
  | S n', String _ s' => substring_from n' s'
  end.

(** [x || d] on numbers: [0] (like [undefined]) selects the default. *)
Definition or_default (x : option Z) (d : Z) : Z :=
  match x with
  | Some v => if v =? 0 then d else v
  | None => d
  end.

(** [!s] on a string-or-null. *)
Definition falsy (s : option string) : bool :=
  match s with
  | Some EmptyString => true
  | Some _ => false
  | None => true
  end.

(** ** The store *)

Module Redis.

Inductive value :=
| VString (s : string)
| VZSet (zs : list (string * Z)).   (* member, score; members distinct *)

Record entry := Entry { e_value : value; e_expiry : option Z }.

Abbreviation db := (gmap string entry).

Definition WRONGTYPE : string :=
  "WRONGTYPE Operation against a key holding the wrong kind of value".

(** A key is gone once the clock has passed its expiry. *)
Definition expired (t : Z) (e : entry) : bool :=
  match e_expiry e with
  | Some x => x <? t
  | None => false
  end.

(** What a command sees under key [k] at server time [t]. *)
Definition live (t : Z) (d : db) (k : string) : option entry :=
  match d !! k with
  | Some e => if expired t e then None else Some e
  | None => None
  end.

(** A command or script: runs on the store, replies or fails.  A
    failure carries the message of the failing command.  When the
    command is called from a script, a server sends that message
    together with the name and line of the script, in a form that
    depends on its version; the model keeps the message of the command
    only, and no statement below rests on the text of such an error. *)
Definition script (A : Type) : Type := db -> (string + A) * db.

Definition ret {A} (a : A) : script A := fun d => (inr a, d).

Definition bind {A B} (c : script A) (k : A -> script B) : script B :=
  fun d =>
    match c d with
    | (inr a, d') => k a d'
    | (inl err, d') => (inl err, d')
    end.

(** SET k v PX ttl NX *)
Definition set_px_nx (t : Z) (k v : string) (ttl : Z) : script bool :=
  fun d =>
    if ttl <=? 0 then (inl "ERR invalid expire time in 'set' command"%string, d)
    else match live t d k with
         | Some _ => (inr false, d)
         | None => (inr true, <[k := Entry (VString v) (Some (t + ttl))]> d)
         end.

(** GET k *)
Definition get (t : Z) (k : string) : script (option string) :=
  fun d =>
    match live t d k with
    | None => (inr None, d)
    | Some (Entry (VString s) _) => (inr (Some s), d)
    | Some (Entry (VZSet _) _) => (inl WRONGTYPE, d)
    end.

(** DEL k *)
Definition del (t : Z) (k : string) : script Z :=
  fun d =>
    match live t d k with
    | Some _ => (inr 1, delete k d)
    | None => (inr 0, delete k d)
    end.

(** PEXPIRE k ttl: a non-positive ttl deletes the key. *)
Definition pexpire (t : Z) (k : string) (ttl : Z) : script Z :=
  fun d =>
    match live t d k with
    | None => (inr 0, d)
    | Some e =>
        if ttl <=? 0 then (inr 1, delete k d)
        else (inr 1, <[k := Entry (e_value e) (Some (t + ttl))]> d)
    end.

(** EXPIRE k seconds *)
Definition expire (t : Z) (k : string) (seconds : Z) : script Z :=
  pexpire t k (seconds * 1000).

Definition in_range (lo hi : Z) (p : string * Z) : bool :=
  (lo <=? p.2) && (p.2 <=? hi).

Definition zkeep (lo hi : Z) (zs : list (string * Z)) : list (string * Z) :=
  List.filter (fun p => negb (in_range lo hi p)) zs.

(** ZREMRANGEBYSCORE k lo hi (both bounds inclusive); an emptied set
    is removed from the key space. *)
Definition zremrangebyscore (t : Z) (k : string) (lo hi : Z) : script Z :=
  fun d =>
    match live t d k with
    | None => (inr 0, d)
    | Some (Entry (VString _) _) => (inl WRONGTYPE, d)
    | Some (Entry (VZSet zs) ex) =>
        let kept := zkeep lo hi zs in
        let removed := Z.of_nat (length zs) - Z.of_nat (length kept) in
        match kept with
        | [] => (inr removed, delete k d)
        | _ :: _ => (inr removed, <[k := Entry (VZSet kept) ex]> d)
        end
    end.

(** ZCARD k *)
Definition zcard (t : Z) (k : string) : script Z :=
  fun d =>
    match live t d k with
    | None => (inr 0, d)
    | Some (Entry (VString _) _) => (inl WRONGTYPE, d)
    | Some (Entry (VZSet zs) _) => (inr (Z.of_nat (length zs)), d)
    end.

Definition has_member (m : string) (zs : list (string * Z)) : bool :=
  existsb (fun p => String.eqb p.1 m) zs.

Definition set_score (m : string) (s : Z) (zs : list (string * Z))
  : list (string * Z) :=
  List.map (fun p => if String.eqb p.1 m then (m, s) else p) zs.

Definition zinsert (m : string) (s : Z) (zs : list (string * Z))
  : list (string * Z) :=
  if has_member m zs then set_score m s zs else zs ++ [(m, s)].

(** ZADD k score member: a member already present gets the new score. *)
Definition zadd (t : Z) (k : string) (score : Z) (m : string) : script Z :=
  fun d =>
    match live t d k with
    | None => (inr 1, <[k := Entry (VZSet [(m, score)]) None]> d)
    | Some (Entry (VString _) _) => (inl WRONGTYPE, d)
    | Some (Entry (VZSet zs) ex) =>
        (inr (if has_member m zs then 0 else 1),
         <[k := Entry (VZSet (zinsert m score zs)) ex]> d)
    end.

(** Sorted-set order: by score, then by member. *)
Definition zlt (p q : string * Z) : bool :=
  (p.2 <? q.2) || ((p.2 =? q.2) && String.ltb p.1 q.1).

Fixpoint zfirst (zs : list (string * Z)) : option (string * Z) :=
  match zs with
  | [] => None
  | p :: rest =>
      match zfirst rest with
      | Some q => if zlt q p then Some q else Some p
      | None => Some p
      end
  end.

(** ZRANGE k 0 0 WITHSCORES: the first element in sorted-set order. *)
Definition zrange_first (t : Z) (k : string) : script (option (string * Z)) :=
  fun d =>
    match live t d k with
    | None => (inr None, d)
    | Some (Entry (VString _) _) => (inl WRONGTYPE, d)
    | Some (Entry (VZSet zs) _) => (inr (zfirst zs), d)
    end.

End Redis.

(** ** Client-side effects *)

(** The requests the two modules send to the store. *)
Inductive command :=
| SET_PX_NX (key value : string) (px : Z)
| EVAL_release (key token : string)
| EVAL_extend (key token : string) (ttl : Z)
| EVAL_rateLimit (key : string) (now windowStart limit window : Z)
| ZRANGE_0_0_WITHSCORES (key : string)
| DEL (key : string).

Inductive reply :=
| RNil
| ROk
| RInteger (n : Z)
| RIntegers (l : list Z)      (* an array of integers *)
| RBulks (l : list string)    (* an array of strings *)
| RError (msg : string).

Inductive event :=
| EvStore (c : command) (r : reply)   (* a request and the store's answer *)
| EvSleep (ms : Z)                    (* setTimeout(resolve, ms), awaited *)
| EvCall.                             (* the user callback was invoked *)

Inductive exn :=
| Error (msg : string)        (* throw new Error(msg) *)
| ReplyError (msg : string).  (* the client rejects on an error reply *)

Inductive outcome (A : Type) :=
| Return (a : A)
| Throw (e : exn).
Arguments Return {A} a.
Arguments Throw {A} e.

(** What a callback may touch: the store, the time it takes, the client
    handle (through [initConfig] and [disconnect]). *)
Record env := Env { store : Redis.db; clock : Z; redisClient : bool }.

Record world := World { w_env : env; trace : list event }.

Definition M (A : Type) : Type := world -> outcome A * world.

#[global] Instance M_ret : MRet M := fun A a w => (Return a, w).

#[global] Instance M_bind : MBind M := fun A B k c w =>
  match c w with
  | (Return a, w') => k a w'
  | (Throw e, w') => (Throw e, w')
  end.

Definition throw {A} (e : exn) : M A := fun w => (Throw e, w).

Definition log (ev : event) (w : world) : world :=
  World (w_env w) (trace w ++ [ev]).

Definition set_store (d : Redis.db) (w : world) : world :=
  World (Env d (clock (w_env w)) (redisClient (w_env w))) (trace w).

Definition set_clock (t : Z) (w : world) : world :=
  World (Env (store (w_env w)) t (redisClient (w_env w))) (trace w).

(** [Date.now()] *)
Definition Date_now : M Z := fun w => (Return (clock (w_env w)), w).

(** config.ts, [getCacheClient]: fails when no client was created.  (The
    lazy [connect()] of a client in status 'wait' is part of the client
    library and has no effect on the store.) *)
Definition getCacheClient : M unit := fun w =>
  if redisClient (w_env w) then (Return tt, w)
  else (Throw (Error "Redis client not initialized. Call initConfig() first."), w).

(** One awaited round trip: the store runs [run] at the current instant;
    the request and its answer are logged; an error reply is thrown. *)
Definition send {A} (c : command) (run : Z -> Redis.script A)
    (show : A -> reply) : M A := fun w =>
  match run (clock (w_env w)) (store (w_env w)) with
  | (inr a, d) => (Return a, log (EvStore c (show a)) (set_store d w))
  | (inl err, d) => (Throw (ReplyError err), log (EvStore c (RError err)) (set_store d w))
  end.

(** The delay a timer really waits: values below 1 or above 2^31-1 are
    replaced by 1. *)
Definition timer_delay (ms : Z) : Z :=
  if (ms <? 1) || (2147483647 <? ms) then 1 else ms.

(** [await new Promise(resolve => setTimeout(resolve, ms))] *)
Definition sleep (ms : Z) : M unit := fun w =>
  (Return tt, log (EvSleep ms) (set_clock (clock (w_env w) + timer_delay ms) w)).

(** [try { body } finally { fin }]: [fin] always runs; when it throws, its
    error replaces the outcome of [body]. *)
Definition try_finally {A B} (body : M A) (fin : M B) : M A := fun w =>
  let '(o, w1) := body w in
  match fin w1 with
  | (Return _, w2) => (o, w2)
  | (Throw e, w2) => (Throw e, w2)
  end.

(** Invoking a user callback. *)
Definition call {T} (fn : env -> outcome T * env) : M T := fun w =>
  let '(o, e) := fn (w_env w) in (o, World e (trace w ++ [EvCall])).

(** ** src/lock/index.ts *)

Module Lock.

Record LockOptions := {
  ttl : option Z;         (* Lock TTL in milliseconds (default: 10000) *)
  retries : option Z;     (* Retry attempts (default: 0) *)
  retryDelay : option Z   (* Retry delay in milliseconds (default: 100) *)
}.

Definition no_options : LockOptions :=
  {| ttl := None; retries := None; retryDelay := None |}.

Definition show_set (ok : bool) : reply := if ok then ROk else RNil.

(** The loop [for (let i = 0; i <= retries; i++)]; [n] is the number of
    iterations still to run, [Z.to_nat (retries - i + 1)]. *)
Fixpoint attempts (lockKey token : string) (ttl retries retryDelay : Z)
    (n : nat) (i : Z) : M (option string) :=
  match n with
  | O => mret None
  | S n' =>
      result ← send (SET_PX_NX lockKey token ttl)
                 (fun t => Redis.set_px_nx t lockKey token ttl) show_set;
      if result : bool then mret (Some token)
      else
        (if i <? retries then sleep retryDelay else mret tt);;
        attempts lockKey token ttl retries retryDelay n' (i + 1)
  end.

(** [random36] is the value of [Math.random().toString(36)] for this call. *)
Definition acquireLock (random36 : string) (key : string)
    (options : LockOptions) : M (option string) :=
  if String.eqb key "" then throw (Error "Lock key must be a non-empty string")
  else
    getCacheClient;;
    let lockKey := "lock:" +:+ key in
    now ← Date_now;
    let token := dec now +:+ "-" +:+ substring_from 2 random36 in
    let ttl := or_default (ttl options) 10000 in
    if ttl <? 1 then throw (Error "Lock TTL must be positive")
    else
      let retries := or_default (retries options) 0 in
      let retryDelay := or_default (retryDelay options) 100 in
      attempts lockKey token ttl retries retryDelay (Z.to_nat (retries + 1)) 0.

(** The script of [releaseLock]. *)
Definition release_script (t : Z) (key1 argv1 : string) : Redis.script Z :=
  Redis.bind (Redis.get t key1) (fun v =>
    if decide (v = Some argv1) then Redis.del t key1 else Redis.ret 0).

Definition releaseLock (key token : string) : M bool :=
  getCacheClient;;
  let lockKey := "lock:" +:+ key in
  result ← send (EVAL_release lockKey token)
             (fun t => release_script t lockKey token) RInteger;
  mret (result =? 1).

(** The script of [extendLock]. *)
Definition extend_script (t : Z) (key1 argv1 : string) (argv2 : Z)
    : Redis.script Z :=
  Redis.bind (Redis.get t key1) (fun v =>
    if decide (v = Some argv1) then Redis.pexpire t key1 argv2 else Redis.ret 0).

Definition extendLock (key token : string) (ttl : Z) : M bool :=
  getCacheClient;;
  let lockKey := "lock:" +:+ key in
  result ← send (EVAL_extend lockKey token ttl)
             (fun t => extend_script t lockKey token ttl) RInteger;
  mret (result =? 1).

Definition withLock {T} (random36 : string) (key : string)
    (fn : env -> outcome T * env) (options : LockOptions) : M T :=
  token ← acquireLock random36 key options;
  if falsy token then throw (Error ("Failed to acquire lock: " +:+ key))
  else
    match token with
    | Some tok => try_finally (call fn) (releaseLock key tok)
    | None => throw (Error ("Failed to acquire lock: " +:+ key))
    end.

End Lock.

(** ** src/rate-limit/index.ts *)

Module RateLimit.

Record RateLimitResult := {
  allowed : bool;
  remaining : Z;
  resetAt : Z;
  retryAfter : option Z
}.

Record RateLimitOptions := {
  limit : Z;
  window : Z;
  key : string
}.

(** The script of [checkRateLimit]; [luaRandom] is the rendering of the
    script's [math.random()].  The member tag is [now .. '-' .. random];
    a timestamp below 10^14 is rendered by Lua in plain decimal. *)
Definition rateLimit_script (luaRandom : string) (t : Z) (key : string)
    (now windowStart limit window : Z) : Redis.script (Z * Z) :=
  Redis.bind (Redis.zremrangebyscore t key 0 windowStart) (fun _ =>
  Redis.bind (Redis.zcard t key) (fun count =>
    if count <? limit then
      Redis.bind (Redis.zadd t key now (dec now +:+ "-" +:+ luaRandom)) (fun _ =>
      Redis.bind (Redis.expire t key window) (fun _ =>
      Redis.ret (1, count)))
    else Redis.ret (0, count))).

Definition show_pair (r : Z * Z) : reply := RIntegers [r.1; r.2].

(** The scores of the model are integers, which the store renders in
    plain decimal: [parseInt] gives the score back. *)
Definition show_first (r : option (string * Z)) : reply :=
  match r with
  | Some (m, s) => RBulks [m; dec s]
  | None => RBulks []
  end.

Definition checkRateLimit (luaRandom : string) (identifier : string)
    (options : RateLimitOptions) : M RateLimitResult :=
  if String.eqb identifier "" then
    throw (Error "Identifier must be a non-empty string")
  else if String.eqb (key options) "" then
    throw (Error "Options.key must be a non-empty string")
  else if limit options <? 1 then
    throw (Error "Options.limit must be a positive number")
  else if window options <? 1 then
    throw (Error "Options.window must be a positive number")
  else
    getCacheClient;;
    let key := "ratelimit:" +:+ key options +:+ ":" +:+ identifier in
    now ← Date_now;
    let windowStart := now - window options * 1000 in
    result ← send (EVAL_rateLimit key now windowStart (limit options) (window options))
               (fun t => rateLimit_script luaRandom t key now windowStart
                           (limit options) (window options))
               show_pair;
    let allowed := result.1 =? 1 in
    let count := result.2 in
    let remaining := Z.max 0 (limit options - count - (if allowed then 1 else 0)) in
    let resetAt := now + window options * 1000 in
    if negb allowed then
      oldestRequest ← send (ZRANGE_0_0_WITHSCORES key)
                        (fun t => Redis.zrange_first t key) show_first;
      let oldestTimestamp :=
        match oldestRequest with
        | Some (_, score) => score
        | None => now
        end in
      let retryAfter := Z.max 0 (oldestTimestamp + window options * 1000 - now) in
      mret {| allowed := false; remaining := 0; resetAt := resetAt;
              retryAfter := Some retryAfter |}
    else
      mret {| allowed := true; remaining := remaining; resetAt := resetAt;
              retryAfter := None |}.

Definition resetRateLimit (identifier key : string) : M unit :=
  getCacheClient;;
  let k := "ratelimit:" +:+ key +:+ ":" +:+ identifier in
  send (DEL k) (fun t => Redis.del t k) RInteger;;
  mret tt.

(** [Partial<RateLimitOptions>] *)
Record PartialOptions := {
  p_limit : option Z;
  p_window : option Z;
  p_key : option string
}.

(** [{ ...defaultOptions, ...overrides }] *)
Definition spread (defaultOptions : RateLimitOptions)
    (overrides : option PartialOptions) : RateLimitOptions :=
  match overrides with
  | None => defaultOptions
  | Some o =>
      {| limit := default (limit defaultOptions) (p_limit o);
         window := default (window defaultOptions) (p_window o);
         key := default (key defaultOptions) (p_key o) |}
  end.

Definition createRateLimiter (defaultOptions : RateLimitOptions)
    (luaRandom : string) (identifier : string)
    (overrides : option PartialOptions) : M RateLimitResult :=
  checkRateLimit luaRandom identifier (spread defaultOptions overrides).

End RateLimit.

(** ** Reading the log *)

(** The events a run appended to the log. *)
Definition appended (w w' : world) (evs : list event) : Prop :=
  trace w' = trace w ++ evs.

(** How many times the user callback ran. *)
Definition calls (evs : list event) : nat :=
  length (List.filter (fun ev => match ev with EvCall => true | _ => false end) evs).

(** The requests sent to the store. *)
Definition requests (evs : list event) : list command :=
  omap (fun ev => match ev with EvStore c _ => Some c | _ => None end) evs.

(** [j] rounds of a failed request [req] each followed by the timer [ms]. *)
Fixpoint failed_rounds (req : command) (ms : Z) (j : nat) : list event :=
  match j with
  | O => []
  | S j' => EvStore req RNil :: EvSleep ms :: failed_rounds req ms j'
  end.

(** The token scheme of [acquireLock]: the clock reading in decimal, a
    hyphen, and what follows "0." in the base-36 rendering [random36] of
    one [Math.random()] draw. *)
Definition timestamp_plus_random (now : Z) (random36 tok : string) : Prop :=
  tok = dec now +:+ "-" +:+ substring_from 2 random36.

(** The number of timers in a log. *)
Definition sleeps (evs : list event) : nat :=
  length (List.filter (fun ev => match ev with EvSleep _ => true | _ => false end) evs).

(** A world right after [initConfig], with the given store and clock. *)
Definition init_world (d : Redis.db) (now : Z) : world :=
  World (Env d now true) [].

(** A store in which [lock:res] is held until [expiry]. *)
Definition held_store (tok : string) (expiry : Z) : Redis.db :=
  <["lock:res"%string := Redis.Entry (Redis.VString tok) (Some expiry)]> ∅.

(** The string a command sees under a key, if any. *)
Definition holder (t : Z) (d : Redis.db) (k : string) : option string :=
  match Redis.live t d k with
  | Some (Redis.Entry (Redis.VString s) _) => Some s
  | _ => None
  end.

(** The sorted set a command sees under a key; an absent key reads as
    the empty set. *)
Definition zset_at (t : Z) (d : Redis.db) (k : string) : list (string * Z) :=
  match Redis.live t d k with
  | Some (Redis.Entry (Redis.VZSet zs) _) => zs
  | _ => []
  end.

Definition holds_zset (t : Z) (d : Redis.db) (k : string) : bool :=
  match Redis.live t d k with
  | Some (Redis.Entry (Redis.VZSet _) _) => true
  | _ => false
  end.

Definition holds_string (t : Z) (d : Redis.db) (k : string) : bool :=
  match Redis.live t d k with
  | Some (Redis.Entry (Redis.VString _) _) => true
  | _ => false
  end.

(** A store in which the window of identifier [x] in scope [api] holds
    the given entries and lasts until [expiry]. *)
Definition window_store (zs : list (string * Z)) (expiry : Z) : Redis.db :=
  <["ratelimit:api:x"%string := Redis.Entry (Redis.VZSet zs) (Some expiry)]> ∅.

(** A command on key [key] leaves every other key alone. *)
Definition frames {A} (key : string) (c : Redis.script A) : Prop :=
  forall (d : Redis.db) k, k <> key -> (c d).2 !! k = d !! k.

(** ** Histories of the store

    Clients interleave at the granularity of requests: the store runs
    each request, script included, in one piece. *)

(** What a request does to the store, whoever sends it; [luaRandom] is
    the script's [math.random()] when the request is the rate-limit
    script. *)
Definition effect (luaRandom : string) (c : command) (t : Z) (d : Redis.db)
    : Redis.db :=
  match c with
  | SET_PX_NX k v px => (Redis.set_px_nx t k v px d).2
  | EVAL_release k tok => (Lock.release_script t k tok d).2
  | EVAL_extend k tok ttl => (Lock.extend_script t k tok ttl d).2
  | EVAL_rateLimit k now windowStart limit window =>
      (RateLimit.rateLimit_script luaRandom t k now windowStart limit window d).2
  | ZRANGE_0_0_WITHSCORES k => (Redis.zrange_first t k d).2
  | DEL k => (Redis.del t k d).2
  end.

Inductive action :=
| Tick (ms : Z)                                (* time passes *)
| Request (luaRandom : string) (c : command).  (* some client's request arrives *)

Definition step (s : Redis.db * Z) (a : action) : Redis.db * Z :=
  match a with
  | Tick ms => (s.1, s.2 + Z.max 0 ms)
  | Request r c => (effect r c s.2 s.1, s.2)
  end.

Definition history (acts : list action) (s : Redis.db * Z) : Redis.db * Z :=
  fold_left step acts s.

(** In state [s], [tok] holds key [k] until [expiry]. *)
Definition lease (k tok : string) (expiry : Z) (s : Redis.db * Z) : Prop :=
  Redis.live s.2 s.1 k = Some (Redis.Entry (Redis.VString tok) (Some expiry)).

(** The requests that end or renew the lease of [tok] on key [k]: a
    release or an extension presenting [tok], or a plain deletion. *)
Definition ends_lease (k tok : string) (a : action) : bool :=
  match a with
  | Request _ (EVAL_release k' tok') => String.eqb k' k && String.eqb tok' tok
  | Request _ (EVAL_extend k' tok' _) => String.eqb k' k && String.eqb tok' tok
  | Request _ (DEL k') => String.eqb k' k
  | _ => false
  end.

(** ** checkRateLimit among other clients

    [checkRateLimit] awaits the store twice: for the script and, when
    the script refused the call, for the read of the oldest entry.
    While it waits, requests of other clients reach the store and time
    passes. *)

(** Requests of other clients and the passing of time, as the store
    sees them while this client waits.  The log is this client's: they
    are not in it. *)
Definition arrive (acts : list action) : M unit := fun w =>
  let s := history acts (store (w_env w), clock (w_env w)) in
  (Return tt, set_clock s.2 (set_store s.1 w)).

Module Interleaved.

(** The body of [RateLimit.checkRateLimit], with [before] arriving
    between the reading of the clock and the execution of the script,
    and [between] arriving between the script and the read of the
    oldest entry. *)
Definition checkRateLimit (before between : list action)
    (luaRandom : string) (identifier : string)
    (options : RateLimit.RateLimitOptions) : M RateLimit.RateLimitResult :=
  if String.eqb identifier "" then
    throw (Error "Identifier must be a non-empty string")
  else if String.eqb (RateLimit.key options) "" then
    throw (Error "Options.key must be a non-empty string")
  else if RateLimit.limit options <? 1 then
    throw (Error "Options.limit must be a positive number")
  else if RateLimit.window options <? 1 then
    throw (Error "Options.window must be a positive number")
  else
    getCacheClient;;
    let key := "ratelimit:" +:+ RateLimit.key options +:+ ":" +:+ identifier in
    now ← Date_now;
    let windowStart := now - RateLimit.window options * 1000 in
    arrive before;;
    result ← send (EVAL_rateLimit key now windowStart (RateLimit.limit options)
                     (RateLimit.window options))
               (fun t => RateLimit.rateLimit_script luaRandom t key now windowStart
                           (RateLimit.limit options) (RateLimit.window options))
               RateLimit.show_pair;
    let allowed := result.1 =? 1 in
    let count := result.2 in
    let remaining :=
      Z.max 0 (RateLimit.limit options - count - (if allowed then 1 else 0)) in
    let resetAt := now + RateLimit.window options * 1000 in
    if negb allowed then
      arrive between;;
      oldestRequest ← send (ZRANGE_0_0_WITHSCORES key)
                        (fun t => Redis.zrange_first t key) RateLimit.show_first;
      let oldestTimestamp :=
        match oldestRequest with
        | Some (_, score) => score
        | None => now
        end in
      let retryAfter :=
        Z.max 0 (oldestTimestamp + RateLimit.window options * 1000 - now) in
      mret {| RateLimit.allowed := false; RateLimit.remaining := 0;
              RateLimit.resetAt := resetAt;
              RateLimit.retryAfter := Some retryAfter |}
    else
      mret {| RateLimit.allowed := true; RateLimit.remaining := remaining;
              RateLimit.resetAt := resetAt; RateLimit.retryAfter := None |}.

End Interleaved.



(** ** Further definitions *)

(** The message of [getCacheClient] on a missing client. *)
Definition not_initialized : string :=
  "Redis client not initialized. Call initConfig() first.".

(** A callback that itself runs a computation of the library: it sees
    the store, the clock and the client handle, and its own log is its
    own. *)
Definition as_callback {T} (m : M T) : env -> outcome T * env :=
  fun e => let r := m (World e []) in (r.1, w_env r.2).

(** No hyphen among the characters of a string. *)
Fixpoint hyphen_free (s : string) : bool :=
  match s with
  | EmptyString => true
  | String c s' => negb (Ascii.eqb c "-"%char) && hyphen_free s'
  end.

(** ** Sequences of checks *)


(** Calls of [checkRateLimit] for one identifier and one set of options,
    made one after the other at the given instants, with the given
    renderings of the script's [math.random()]. *)
Fixpoint checks (identifier : string) (options : RateLimit.RateLimitOptions)
    (cs : list (Z * string)) (w : world)
    : list (outcome RateLimit.RateLimitResult) * world :=
  match cs with
  | [] => ([], w)
  | (t, luaRandom) :: cs' =>
      let r := RateLimit.checkRateLimit luaRandom identifier options (set_clock t w) in
      let rs := checks identifier options cs' r.2 in
      (r.1 :: rs.1, rs.2)
  end.

Definition admitted (o : outcome RateLimit.RateLimitResult) : bool :=
  match o with
  | Return res => RateLimit.allowed res
  | Throw _ => false
  end.

(** The instants of the admitted calls, in order. *)
Fixpoint admitted_times (cs : list (Z * string))
    (os : list (outcome RateLimit.RateLimitResult)) : list Z :=
  match cs, os with
  | (t, _) :: cs', o :: os' =>
      if admitted o then t :: admitted_times cs' os' else admitted_times cs' os'
  | _, _ => []
  end.





(** A computation that changes the store under [key] at most, and
    leaves the client handle alone. *)
Definition touches_only {A} (key : string) (m : M A) : Prop :=
  forall w o w', m w = (o, w') ->
    redisClient (w_env w') = redisClient (w_env w) /\
    forall k, k <> key -> store (w_env w') !! k = store (w_env w) !! k.

(** * Properties *)

(** ** The store *)

Section StoreFacts.

Import Redis.

Lemma expired_mono t t' e : t <= t' -> expired t e = true -> expired t' e = true.
Proof.
  unfold expired. destruct (e_expiry e) as [x|]; [|done].
  rewrite !Z.ltb_lt. lia.
Qed.

(** A key seen at a later instant was seen at every earlier one. *)
Lemma live_mono t t' (d : db) k e :
  t <= t' -> live t' d k = Some e -> live t d k = Some e.
Proof.
  unfold live. intros Ht. destruct (d !! k) as [e0|]; [|done].
  destruct (expired t' e0) eqn:E'; [done|]. intros [= ->].
  destruct (expired t e) eqn:E; [|done].
  rewrite (expired_mono _ _ _ Ht E) in E'. done.
Qed.

Lemma live_is_Some_mono t t' (d : db) k :
  t <= t' -> is_Some (live t' d k) -> is_Some (live t d k).
Proof. intros Ht [e He]. exists e. by eapply live_mono. Qed.

Lemma live_lookup t (d : db) k e : live t d k = Some e -> d !! k = Some e.
Proof.
  unfold live. destruct (d !! k) as [e0|]; [|done].
  by destruct (expired t e0); [|intros [= ->]].
Qed.

(** A key that is not seen is absent, or its expiry has passed. *)
Lemma live_None_inv t (d : db) k :
  live t d k = None ->
  d !! k = None \/ exists e x, d !! k = Some e /\ e_expiry e = Some x /\ x < t.
Proof.
  unfold live. destruct (d !! k) as [e|]; [|by left].
  unfold expired. destruct (e_expiry e) as [x|] eqn:Ex; [|done].
  destruct (x <? t) eqn:Hx; [|done]. intros _. right. exists e, x.
  apply Z.ltb_lt in Hx. done.
Qed.

Lemma live_delete_eq t (d : db) k : live t (delete k d) k = None.
Proof. unfold live. by rewrite lookup_delete_eq. Qed.

(** Set-if-absent never replaces a key that is there. *)
Lemma set_px_nx_held t k v ttl (d : db) e :
  0 < ttl -> live t d k = Some e -> set_px_nx t k v ttl d = (inr false, d).
Proof.
  intros Httl Hl. unfold set_px_nx.
  destruct (ttl <=? 0) eqn:E; [apply Z.leb_le in E; lia|]. by rewrite Hl.
Qed.

Lemma set_px_nx_free t k v ttl (d : db) :
  0 < ttl -> live t d k = None ->
  set_px_nx t k v ttl d = (inr true, <[k := Entry (VString v) (Some (t + ttl))]> d).
Proof.
  intros Httl Hl. unfold set_px_nx.
  destruct (ttl <=? 0) eqn:E; [apply Z.leb_le in E; lia|]. by rewrite Hl.
Qed.

End StoreFacts.

(** ** The monad *)

Lemma set_store_id w : set_store (store (w_env w)) w = w.
Proof. by destruct w as [[? ? ?] ?]. Qed.

Lemma getCacheClient_ready w :
  redisClient (w_env w) = true -> getCacheClient w = (Return tt, w).
Proof. unfold getCacheClient. by intros ->. Qed.


Lemma send_set_px_nx k v ttl w :
  0 < ttl ->
  send (SET_PX_NX k v ttl) (fun t => Redis.set_px_nx t k v ttl) Lock.show_set w =
  match Redis.live (clock (w_env w)) (store (w_env w)) k with
  | Some _ => (Return false, log (EvStore (SET_PX_NX k v ttl) RNil) w)
  | None =>
      (Return true,
       log (EvStore (SET_PX_NX k v ttl) ROk)
         (set_store (<[k := Redis.Entry (Redis.VString v)
                               (Some (clock (w_env w) + ttl))]> (store (w_env w))) w))
  end.
Proof.
  intros Httl. unfold send.
  destruct (Redis.live _ _ k) as [e|] eqn:Hl.
  - rewrite (set_px_nx_held _ _ _ _ _ e Httl Hl). by rewrite set_store_id.
  - by rewrite (set_px_nx_free _ _ _ _ _ Httl Hl).
Qed.

(** ** The retry loop of acquireLock *)

Section Attempts.

Variables (lockKey token : string) (ttl retries retryDelay : Z).
Hypothesis ttl_pos : 0 < ttl.

Let req := SET_PX_NX lockKey token ttl.

Lemma attempts_S n i :
  Lock.attempts lockKey token ttl retries retryDelay (S n) i =
  (result ← send (SET_PX_NX lockKey token ttl)
              (fun t => Redis.set_px_nx t lockKey token ttl) Lock.show_set;
   if result : bool then mret (Some token)
   else
     (if i <? retries then sleep retryDelay else mret tt);;
     Lock.attempts lockKey token ttl retries retryDelay n (i + 1)).
Proof. reflexivity. Qed.

(** The loop with [n + 1] iterations left, at index [retries - n]: it
    stops at the first request that succeeds, after [j <= n] failed
    rounds; or all [n + 1] requests fail, with [n] timers between them. *)
Lemma attempts_spec n w :
  exists (j : nat) (ok : bool) (w' : world),
    Lock.attempts lockKey token ttl retries retryDelay (S n)
      (retries - Z.of_nat n) w
      = (Return (if ok then Some token else None), w') /\
    (j <= n)%nat /\
    appended w w' (failed_rounds req retryDelay j ++ [EvStore req (Lock.show_set ok)]) /\
    clock (w_env w') = clock (w_env w) + Z.of_nat j * timer_delay retryDelay /\
    redisClient (w_env w') = redisClient (w_env w) /\
    (if ok
     then Redis.live (clock (w_env w')) (store (w_env w)) lockKey = None /\
          store (w_env w') =
            <[lockKey := Redis.Entry (Redis.VString token)
                           (Some (clock (w_env w') + ttl))]> (store (w_env w))
     else j = n /\
          is_Some (Redis.live (clock (w_env w')) (store (w_env w)) lockKey) /\
          store (w_env w') = store (w_env w)).
Proof.
  revert w. induction n as [|n IH]; intros w.
  - rewrite attempts_S. unfold mbind, M_bind. rewrite send_set_px_nx by done.
    replace (retries - Z.of_nat 0) with retries by lia.
    destruct (Redis.live _ _ lockKey) as [e|] eqn:Hl.
    + rewrite Z.ltb_irrefl. cbn.
      exists 0%nat, false, (log (EvStore req RNil) w). cbn.
      repeat split; try done; try lia.
    + exists 0%nat, true. eexists. cbn. split; [reflexivity|].
      cbn. rewrite Z.add_0_r. repeat split; try done.
  - rewrite attempts_S. unfold mbind at 1, M_bind at 1.
    rewrite send_set_px_nx by done.
    destruct (Redis.live _ _ lockKey) as [e|] eqn:Hl.
    + assert ((retries - Z.of_nat (S n) <? retries) = true) as ->
        by (apply Z.ltb_lt; lia).
      unfold mbind, M_bind, sleep. cbv beta iota.
      replace (retries - Z.of_nat (S n) + 1) with (retries - Z.of_nat n) by lia.
      set (w1 := log (EvSleep retryDelay) _).
      destruct (IH w1) as (j & ok & w' & Hrun & Hj & Htr & Hck & Hcl & Hst).
      exists (S j), ok, w'. rewrite Hrun. split; [done|].
      split; [lia|]. split.
      { unfold appended in *. rewrite Htr. subst w1. cbn.
        rewrite <- !app_assoc. done. }
      assert (clock (w_env w1) = clock (w_env w) + timer_delay retryDelay) as Hc1
        by done.
      assert (store (w_env w1) = store (w_env w)) as Hs1 by done.
      split; [rewrite Hck, Hc1; lia|]. split; [by rewrite Hcl|].
      rewrite Hs1 in Hst. destruct ok; [done|].
      destruct Hst as (-> & ? & ?). done.
    + exists 0%nat, true. eexists. split; [reflexivity|]. cbn.
      rewrite Z.add_0_r. repeat split; try done. lia.
Qed.

(** Every round that failed met the key: the [i]-th request, sent [i]
    timers after the first, was refused because the key was held at
    that instant. *)
Lemma attempts_refused n w :
  exists (j : nat) (ok : bool) (w' : world),
    Lock.attempts lockKey token ttl retries retryDelay (S n)
      (retries - Z.of_nat n) w
      = (Return (if ok then Some token else None), w') /\
    clock (w_env w') = clock (w_env w) + Z.of_nat j * timer_delay retryDelay /\
    forall i, (i < j)%nat ->
      is_Some (Redis.live (clock (w_env w) + Z.of_nat i * timer_delay retryDelay)
                 (store (w_env w)) lockKey).
Proof.
  revert w. induction n as [|n IH]; intros w.
  - rewrite attempts_S. unfold mbind, M_bind. rewrite send_set_px_nx by done.
    replace (retries - Z.of_nat 0) with retries by lia.
    destruct (Redis.live _ _ lockKey) as [e|] eqn:Hl.
    + rewrite Z.ltb_irrefl. cbn.
      exists 0%nat, false, (log (EvStore req RNil) w). cbn.
      split; [done|]. split; [lia|]. intros i Hi. lia.
    + exists 0%nat, true. eexists. split; [reflexivity|]. cbn.
      split; [lia|]. intros i Hi. lia.
  - rewrite attempts_S. unfold mbind at 1, M_bind at 1.
    rewrite send_set_px_nx by done.
    destruct (Redis.live _ _ lockKey) as [e|] eqn:Hl.
    + assert ((retries - Z.of_nat (S n) <? retries) = true) as ->
        by (apply Z.ltb_lt; lia).
      unfold mbind, M_bind, sleep. cbv beta iota.
      replace (retries - Z.of_nat (S n) + 1) with (retries - Z.of_nat n) by lia.
      set (w1 := log (EvSleep retryDelay) _).
      destruct (IH w1) as (j & ok & w' & Hrun & Hck & Hheld).
      assert (clock (w_env w1) = clock (w_env w) + timer_delay retryDelay) as Hc1
        by done.
      assert (store (w_env w1) = store (w_env w)) as Hs1 by done.
      exists (S j), ok, w'. rewrite Hrun. split; [done|].
      split; [rewrite Hck, Hc1; lia|].
      intros [|i] Hi.
      * replace (clock (w_env w) + Z.of_nat 0 * timer_delay retryDelay)
          with (clock (w_env w)) by lia.
        rewrite Hl. by eexists.
      * specialize (Hheld i ltac:(lia)). rewrite Hc1, Hs1 in Hheld.
        replace (clock (w_env w) + Z.of_nat (S i) * timer_delay retryDelay)
          with (clock (w_env w) + timer_delay retryDelay
                + Z.of_nat i * timer_delay retryDelay) by lia.
        exact Hheld.
    + exists 0%nat, true. eexists. split; [reflexivity|]. cbn.
      split; [lia|]. intros i Hi. lia.
Qed.

End Attempts.

Lemma timer_delay_pos ms : 1 <= timer_delay ms.
Proof.
  unfold timer_delay.
  destruct (ms <? 1) eqn:E1; [cbn; lia|]. apply Z.ltb_ge in E1.
  destruct (2147483647 <? ms); cbn; lia.
Qed.

(** ** acquireLock *)

Section AcquireLock.

Variables (random36 key : string) (options : Lock.LockOptions).

(** The constants of the body of [acquireLock], as functions of its
    arguments and of the clock reading [now]. *)
Let lockKey := "lock:" +:+ key.
Let token (now : Z) := dec now +:+ "-" +:+ substring_from 2 random36.
Let ttl := or_default (Lock.ttl options) 10000.
Let retries := or_default (Lock.retries options) 0.
Let retryDelay := or_default (Lock.retryDelay options) 100.

(** Past the validation, [acquireLock] is its loop. *)
Lemma acquireLock_valid w :
  key <> ""%string -> redisClient (w_env w) = true -> 1 <= ttl ->
  Lock.acquireLock random36 key options w =
  Lock.attempts lockKey (token (clock (w_env w))) ttl retries retryDelay
    (Z.to_nat (retries + 1)) 0 w.
Proof.
  intros Hkey Hready Httl. unfold Lock.acquireLock.
  apply String.eqb_neq in Hkey. rewrite Hkey.
  unfold mbind, M_bind. rewrite getCacheClient_ready by done.
  unfold Date_now. fold ttl.
  destruct (ttl <? 1) eqn:E; [apply Z.ltb_lt in E; lia|]. done.
Qed.

(** An invalid call throws before anything is sent or changed. *)
Lemma acquireLock_invalid w :
  key = ""%string \/ redisClient (w_env w) = false \/ ttl < 1 ->
  exists msg, Lock.acquireLock random36 key options w = (Throw (Error msg), w).
Proof.
  intros H. unfold Lock.acquireLock.
  destruct (String.eqb key "") eqn:Ek; [by eexists|].
  apply String.eqb_neq in Ek.
  unfold mbind, M_bind, getCacheClient.
  destruct (redisClient (w_env w)) eqn:Er; [|by eexists].
  unfold Date_now. fold ttl.
  destruct (ttl <? 1) eqn:E; [by eexists|].
  apply Z.ltb_ge in E. destruct H as [?|[?|?]]; [done|done|lia].
Qed.

(** A call is rejected, or has no attempt to make, or is valid with
    at least one attempt. *)
Lemma acquireLock_cases w :
  (exists msg, Lock.acquireLock random36 key options w = (Throw (Error msg), w)) \/
  Lock.acquireLock random36 key options w = (Return None, w) \/
  (key <> ""%string /\ redisClient (w_env w) = true /\ 1 <= ttl /\ 0 <= retries).
Proof.
  destruct (decide (key = ""%string)) as [Hk|Hk].
  { left. apply acquireLock_invalid. by left. }
  destruct (redisClient (w_env w)) eqn:Hready; cycle 1.
  { left. apply acquireLock_invalid. right. by left. }
  destruct (Z_lt_le_dec ttl 1) as [Ht|Ht].
  { left. apply acquireLock_invalid. right. by right. }
  destruct (Z_lt_le_dec retries 0) as [Hr|Hr]; [|by right; right].
  right. left. rewrite acquireLock_valid by done.
  by replace (Z.to_nat (retries + 1)) with 0%nat by lia.
Qed.

(** A valid call with [retries >= 0]: some [j <= retries] failed rounds,
    then one last request, which either is granted or is the last
    allowed one. *)
Lemma acquireLock_run w :
  key <> ""%string -> redisClient (w_env w) = true -> 1 <= ttl -> 0 <= retries ->
  let tok := token (clock (w_env w)) in
  let req := SET_PX_NX lockKey tok ttl in
  exists (j : nat) (ok : bool) (w' : world),
    Lock.acquireLock random36 key options w
      = (Return (if ok then Some tok else None), w') /\
    Z.of_nat j <= retries /\
    appended w w' (failed_rounds req retryDelay j ++ [EvStore req (Lock.show_set ok)]) /\
    clock (w_env w') = clock (w_env w) + Z.of_nat j * timer_delay retryDelay /\
    redisClient (w_env w') = true /\
    (if ok
     then Redis.live (clock (w_env w')) (store (w_env w)) lockKey = None /\
          store (w_env w') =
            <[lockKey := Redis.Entry (Redis.VString tok)
                           (Some (clock (w_env w') + ttl))]> (store (w_env w))
     else Z.of_nat j = retries /\
          is_Some (Redis.live (clock (w_env w')) (store (w_env w)) lockKey) /\
          store (w_env w') = store (w_env w)).
Proof.
  intros Hkey Hready Httl Hr tok req.
  rewrite acquireLock_valid by done.
  destruct (Z.to_nat (retries + 1)) as [|n] eqn:En; [lia|].
  assert (retries = Z.of_nat n) as Hn by lia.
  destruct (attempts_spec lockKey tok ttl retries retryDelay ltac:(lia) n w)
    as (j & ok & w' & Hrun & Hj & Htr & Hck & Hcl & Hst).
  replace (retries - Z.of_nat n) with 0 in Hrun by lia.
  exists j, ok, w'. split; [done|]. split; [lia|]. split; [done|].
  split; [done|]. split; [congruence|].
  destruct ok; [done|]. destruct Hst as (-> & ? & ?). done.
Qed.

(** The same run, seen from the store: every refused request met the
    key held at its instant. *)
Lemma acquireLock_refused w :
  key <> ""%string -> redisClient (w_env w) = true -> 1 <= ttl -> 0 <= retries ->
  exists (j : nat) (ok : bool) (w' : world),
    Lock.acquireLock random36 key options w
      = (Return (if ok then Some (token (clock (w_env w))) else None), w') /\
    clock (w_env w') = clock (w_env w) + Z.of_nat j * timer_delay retryDelay /\
    forall i, (i < j)%nat ->
      is_Some (Redis.live (clock (w_env w) + Z.of_nat i * timer_delay retryDelay)
                 (store (w_env w)) lockKey).
Proof.
  intros Hkey Hready Httl Hr.
  rewrite acquireLock_valid by done.
  destruct (Z.to_nat (retries + 1)) as [|n] eqn:En; [lia|].
  assert (retries = Z.of_nat n) as Hn by lia.
  destruct (attempts_refused lockKey (token (clock (w_env w))) ttl retries retryDelay
              ltac:(lia) n w) as (j & ok & w' & Hrun & Hck & Hheld).
  replace (retries - Z.of_nat n) with 0 in Hrun by lia.
  by exists j, ok, w'.
Qed.

(** Whenever a token is granted, the call was valid, the token is the
    one built at entry, and the key was free at the instant of the
    granting request. *)
Lemma acquireLock_granted w tok w' :
  Lock.acquireLock random36 key options w = (Return (Some tok), w') ->
  tok = token (clock (w_env w)) /\
  clock (w_env w) <= clock (w_env w') /\
  Redis.live (clock (w_env w')) (store (w_env w)) lockKey = None /\
  store (w_env w') =
    <[lockKey := Redis.Entry (Redis.VString tok)
                   (Some (clock (w_env w') + ttl))]> (store (w_env w)).
Proof.
  intros Hrun.
  destruct (acquireLock_cases w) as [[msg Hm]|[Hn|(Hk & Hready & Ht & Hr)]];
    [congruence|congruence|].
  destruct (acquireLock_run w Hk Hready Ht Hr)
    as (j & ok & w'' & Hrun' & Hj & Htr & Hck & Hcl & Hst).
  rewrite Hrun in Hrun'. destruct ok; [|done].
  injection Hrun' as -> <-. split; [done|]. split; [|done].
  rewrite Hck. pose proof (timer_delay_pos retryDelay). nia.
Qed.

End AcquireLock.

Lemma requests_app evs1 evs2 : requests (evs1 ++ evs2) = requests evs1 ++ requests evs2.
Proof. unfold requests. apply omap_app. Qed.

Lemma requests_failed_rounds req ms j :
  requests (failed_rounds req ms j) = replicate j req.
Proof. induction j as [|j IH]; [done|]. cbn. by rewrite <- IH. Qed.

Lemma sleeps_app evs1 evs2 : sleeps (evs1 ++ evs2) = (sleeps evs1 + sleeps evs2)%nat.
Proof. unfold sleeps. by rewrite List.filter_app, length_app. Qed.

Lemma sleeps_failed_rounds req ms j : sleeps (failed_rounds req ms j) = j.
Proof. induction j as [|j IH]; [done|]. unfold sleeps in *. cbn. by rewrite IH. Qed.

Lemma calls_app evs1 evs2 : calls (evs1 ++ evs2) = (calls evs1 + calls evs2)%nat.
Proof. unfold calls. by rewrite List.filter_app, length_app. Qed.

Lemma calls_failed_rounds req ms j : calls (failed_rounds req ms j) = 0%nat.
Proof. induction j as [|j IH]; [done|]. unfold calls in *. cbn. by rewrite IH. Qed.

(** C1. Mutual exclusion.  (a) A valid call on a key that holds a lock
    not expiring before the last attempt ([retries] timers after entry)
    gets every set-if-absent request refused, returns null and leaves
    the store as it was.  (b) Whenever [acquireLock] grants a token, the
    key was free (absent, or past its expiry) at the instant of the
    granting request, and the store then holds exactly that token under the key:
    a second token is granted only after the previous lock was released
    or its TTL elapsed. *)
Theorem acquireLock_mutual_exclusion random36 key options w :
  let lockKey := "lock:" +:+ key in
  let ttl := or_default (Lock.ttl options) 10000 in
  let retries := or_default (Lock.retries options) 0 in
  let retryDelay := or_default (Lock.retryDelay options) 100 in
  let now := clock (w_env w) in
  let req := SET_PX_NX lockKey (dec now +:+ "-" +:+ substring_from 2 random36) ttl in
  (key <> ""%string -> redisClient (w_env w) = true -> 1 <= ttl -> 0 <= retries ->
   is_Some (Redis.live (now + retries * timer_delay retryDelay) (store (w_env w)) lockKey) ->
   exists w',
     Lock.acquireLock random36 key options w = (Return None, w') /\
     store (w_env w') = store (w_env w) /\
     appended w w' (failed_rounds req retryDelay (Z.to_nat retries) ++ [EvStore req RNil]))
  /\
  (forall tok w',
     Lock.acquireLock random36 key options w = (Return (Some tok), w') ->
     now <= clock (w_env w') /\
     Redis.live (clock (w_env w')) (store (w_env w)) lockKey = None /\
     (store (w_env w) !! lockKey = None \/
      exists e x, store (w_env w) !! lockKey = Some e /\
                  Redis.e_expiry e = Some x /\ x < clock (w_env w')) /\
     store (w_env w') =
       <[lockKey := Redis.Entry (Redis.VString tok) (Some (clock (w_env w') + ttl))]>
         (store (w_env w))).
Proof.
  cbv zeta. split.
  - intros Hkey Hready Httl Hr Hheld.
    destruct (acquireLock_run random36 key options w Hkey Hready Httl Hr)
      as (j & ok & w' & Hrun & Hj & Htr & Hck & Hcl & Hst).
    destruct ok.
    + destruct Hst as [Hfree _]. exfalso.
      apply (live_is_Some_mono (clock (w_env w'))) in Hheld.
      * rewrite Hfree in Hheld. by destruct Hheld.
      * rewrite Hck.
        pose proof (timer_delay_pos (or_default (Lock.retryDelay options) 100)).
        nia.
    + destruct Hst as (Hjr & _ & Hstore). exists w'.
      split; [done|]. split; [done|].
      rewrite <- Hjr, Nat2Z.id. exact Htr.
  - intros tok w' Hrun.
    destruct (acquireLock_granted random36 key options w tok w' Hrun)
      as (_ & Hck & Hfree & Hstore).
    split; [done|]. split; [done|]. split; [by apply live_None_inv|done].
Qed.

(** A lock on [res] held until 1700000001000 refuses a caller that
    tries three times, 100 ms apart, from 1700000000000 on. *)
Lemma acquireLock_mutual_exclusion_witness :
  let w := init_world (held_store "1700000000000-4fzyo82mvyr" 1700000001000)
             1700000000000 in
  let options := {| Lock.ttl := None; Lock.retries := Some 2; Lock.retryDelay := None |} in
  exists w',
    Lock.acquireLock "0.abc" "res" options w = (Return None, w') /\
    store (w_env w') = store (w_env w) /\
    appended w w'
      (failed_rounds (SET_PX_NX "lock:res" "1700000000000-abc" 10000) 100 2 ++
       [EvStore (SET_PX_NX "lock:res" "1700000000000-abc" 10000) RNil]).
Proof.
  intros w options.
  apply (proj1 (acquireLock_mutual_exclusion "0.abc" "res" options w)).
  - done.
  - reflexivity.
  - vm_compute. discriminate.
  - vm_compute. discriminate.
  - eexists. vm_compute. reflexivity.
Defined.

(** C8. With [retries = r >= 0], a valid call sends [j + 1 <= r + 1]
    set-if-absent requests: [j] refused ones, each followed by one timer
    of [retryDelay], then a last one with no timer after it.  The [i]-th
    request reaches the store [i] timers after the first; each of the
    [j] refused ones met the key held at that instant.  Either the last
    request met the key free (absent or expired): it is granted, the
    store holds the token under the key for [ttl] ms from then, and the
    token is returned; or it met the key held as well: it is the
    [(r + 1)]-th refusal, the store is as it was, and the call returns
    null; no error is raised. *)
Theorem acquireLock_retries random36 key options w r :
  key <> ""%string ->
  redisClient (w_env w) = true ->
  1 <= or_default (Lock.ttl options) 10000 ->
  or_default (Lock.retries options) 0 = r ->
  0 <= r ->
  let lockKey := "lock:" +:+ key in
  let ttl := or_default (Lock.ttl options) 10000 in
  let retryDelay := or_default (Lock.retryDelay options) 100 in
  let token := dec (clock (w_env w)) +:+ "-" +:+ substring_from 2 random36 in
  let req := SET_PX_NX lockKey token ttl in
  let instant (i : nat) := clock (w_env w) + Z.of_nat i * timer_delay retryDelay in
  exists (j : nat) (ok : bool) (w' : world) (evs : list event),
    Lock.acquireLock random36 key options w
      = (Return (if ok then Some token else None), w') /\
    appended w w' evs /\
    evs = failed_rounds req retryDelay j ++ [EvStore req (Lock.show_set ok)] /\
    requests evs = replicate (S j) req /\
    Z.of_nat (length (requests evs)) <= r + 1 /\
    sleeps evs = j /\
    clock (w_env w') = instant j /\
    (forall i, (i < j)%nat ->
       is_Some (Redis.live (instant i) (store (w_env w)) lockKey)) /\
    (if ok
     then Redis.live (instant j) (store (w_env w)) lockKey = None /\
          store (w_env w') =
            <[lockKey := Redis.Entry (Redis.VString token) (Some (instant j + ttl))]>
              (store (w_env w))
     else Z.of_nat j = r /\
          is_Some (Redis.live (instant j) (store (w_env w)) lockKey) /\
          store (w_env w') = store (w_env w)).
Proof.
  intros Hkey Hready Httl Hr Hr0. cbv zeta. subst r.
  destruct (acquireLock_run random36 key options w Hkey Hready Httl Hr0)
    as (j & ok & w' & Hrun & Hj & Htr & Hck & Hcl & Hst).
  destruct (acquireLock_refused random36 key options w Hkey Hready Httl Hr0)
    as (j2 & ok2 & w2 & Hrun2 & Hck2 & Hheld).
  assert (j2 = j) as ->.
  { rewrite Hrun in Hrun2. injection Hrun2 as _ <-.
    pose proof (timer_delay_pos (or_default (Lock.retryDelay options) 100)).
    rewrite Hck in Hck2. nia. }
  exists j, ok, w'. eexists. split; [exact Hrun|]. split; [exact Htr|].
  split; [reflexivity|].
  assert (requests
            (failed_rounds
               (SET_PX_NX ("lock:" +:+ key)
                  (dec (clock (w_env w)) +:+ "-" +:+ substring_from 2 random36)
                  (or_default (Lock.ttl options) 10000))
               (or_default (Lock.retryDelay options) 100) j ++
             [EvStore
                (SET_PX_NX ("lock:" +:+ key)
                   (dec (clock (w_env w)) +:+ "-" +:+ substring_from 2 random36)
                   (or_default (Lock.ttl options) 10000))
                (Lock.show_set ok)])
          = replicate (S j)
              (SET_PX_NX ("lock:" +:+ key)
                 (dec (clock (w_env w)) +:+ "-" +:+ substring_from 2 random36)
                 (or_default (Lock.ttl options) 10000))) as Hreq.
  { rewrite requests_app, requests_failed_rounds. cbn.
    change (?x :: replicate j ?x) with (replicate (S j) x).
    by rewrite replicate_S_end. }
  split; [exact Hreq|]. split; [rewrite Hreq, length_replicate; lia|].
  split; [rewrite sleeps_app, sleeps_failed_rounds; cbn; lia|].
  split; [exact Hck|]. split; [exact Hheld|].
  rewrite <- Hck. destruct ok; [exact Hst|]. exact Hst.
Qed.

(** Two retries against a lock that expires 150 ms after entry: the
    requests at 0 and 100 ms meet the lock, the one at 200 ms finds it
    expired and is granted. *)
Lemma acquireLock_retries_witness :
  let held := held_store "1700000000000-4fzyo82mvyq" 1700000000150 in
  let w := init_world held 1700000000000 in
  let options := {| Lock.ttl := Some 500; Lock.retries := Some 2;
                    Lock.retryDelay := Some 100 |} in
  let req := SET_PX_NX "lock:res" "1700000000000-abc" 500 in
  let instant (i : nat) := 1700000000000 + Z.of_nat i * timer_delay 100 in
  exists (j : nat) (ok : bool) (w' : world) (evs : list event),
    Lock.acquireLock "0.abc" "res" options w
      = (Return (if ok then Some "1700000000000-abc"%string else None), w') /\
    appended w w' evs /\
    evs = failed_rounds req 100 j ++ [EvStore req (Lock.show_set ok)] /\
    requests evs = replicate (S j) req /\
    Z.of_nat (length (requests evs)) <= 2 + 1 /\
    sleeps evs = j /\
    clock (w_env w') = instant j /\
    (forall i, (i < j)%nat -> is_Some (Redis.live (instant i) held "lock:res")) /\
    (if ok
     then Redis.live (instant j) held "lock:res" = None /\
          store (w_env w') =
            <["lock:res"%string :=
                Redis.Entry (Redis.VString "1700000000000-abc") (Some (instant j + 500))]>
              held
     else Z.of_nat j = 2 /\
          is_Some (Redis.live (instant j) held "lock:res") /\
          store (w_env w') = held).
Proof.
  intros held w options req instant.
  apply (acquireLock_retries "0.abc" "res" options w 2).
  - done.
  - reflexivity.
  - vm_compute. discriminate.
  - reflexivity.
  - lia.
Defined.

(** The run of the witness: two refusals, two timers, the grant at
    200 ms, the lock held from then for 500 ms. *)
Example acquireLock_retries_run :
  let w := init_world (held_store "1700000000000-4fzyo82mvyq" 1700000000150)
             1700000000000 in
  let options := {| Lock.ttl := Some 500; Lock.retries := Some 2;
                    Lock.retryDelay := Some 100 |} in
  let req := SET_PX_NX "lock:res" "1700000000000-abc" 500 in
  let r := Lock.acquireLock "0.abc" "res" options w in
  r.1 = Return (Some "1700000000000-abc"%string) /\
  trace r.2 = [EvStore req RNil; EvSleep 100; EvStore req RNil; EvSleep 100;
               EvStore req ROk] /\
  clock (w_env r.2) = 1700000000200 /\
  store (w_env r.2) = held_store "1700000000000-abc" 1700000000700.
Proof. vm_compute. done. Qed.

(** C2, at the failing input.  The token of a call is built once, at
    entry, as [`${Date.now()}-${Math.random().toString(36).substring(2)}`]:
    the decimal clock reading, a hyphen, and what follows "0." in the
    base-36 rendering of one [Math.random()] draw.  For every call,
    whether it ends with a token, with null or with an error, every
    request it sends carries that one string, and a token it returns is
    that string: nothing enters the token but the millisecond and the
    draw, and no cryptographic source is read.  On a free key at
    1700000000000 with the draw rendered "0.4fzyo82mvyq" the lock is set
    with the token "1700000000000-4fzyo82mvyq"; whoever knows or guesses
    the millisecond and the draw builds the same string, and a
    [releaseLock] presenting it takes the lock from its holder. *)
Theorem acquireLock_token_scheme :
  (forall random36 key options w,
     let tok := dec (clock (w_env w)) +:+ "-" +:+ substring_from 2 random36 in
     let r := Lock.acquireLock random36 key options w in
     timestamp_plus_random (clock (w_env w)) random36 tok /\
     (exists evs,
        appended w r.2 evs /\
        Forall (fun c => c = SET_PX_NX ("lock:" +:+ key) tok
                               (or_default (Lock.ttl options) 10000))
          (requests evs)) /\
     (r.1 = Return (Some tok) \/ r.1 = Return None \/ exists msg, r.1 = Throw (Error msg))) /\
  let w := init_world ∅ 1700000000000 in
  let r := Lock.acquireLock "0.4fzyo82mvyq" "res" Lock.no_options w in
  let guess := dec 1700000000000 +:+ "-" +:+ substring_from 2 "0.4fzyo82mvyq" in
  let r' := Lock.releaseLock "res" guess (set_clock 1700000000050 r.2) in
  r.1 = Return (Some "1700000000000-4fzyo82mvyq"%string) /\
  trace r.2 = [EvStore (SET_PX_NX "lock:res" "1700000000000-4fzyo82mvyq" 10000) ROk] /\
  holder 1700000000050 (store (w_env r.2)) "lock:res"
    = Some "1700000000000-4fzyo82mvyq"%string /\
  r'.1 = Return true /\
  holder 1700000000050 (store (w_env r'.2)) "lock:res" = None.
Proof.
  split; [|vm_compute; done].
  intros random36 key options w. cbv zeta. split; [reflexivity|].
  destruct (acquireLock_cases random36 key options w)
    as [[msg Hm]|[Hn|(Hk & Hready & Ht & Hr)]].
  - rewrite Hm. cbn [fst snd]. split; [|right; right; by exists msg].
    exists []. split; [unfold appended; by rewrite app_nil_r|constructor].
  - rewrite Hn. cbn [fst snd]. split; [|right; by left].
    exists []. split; [unfold appended; by rewrite app_nil_r|constructor].
  - destruct (acquireLock_run random36 key options w Hk Hready Ht Hr)
      as (j & ok & w' & Hrun & _ & Htr & _).
    rewrite Hrun. cbn [fst snd]. split; [|destruct ok; [by left|right; by left]].
    eexists. split; [exact Htr|].
    rewrite requests_app, requests_failed_rounds. cbn.
    apply Forall_app. split; [by apply Forall_replicate|].
    by constructor.
Qed.

(** A negative ttl is rejected before anything is sent to the store. *)
Lemma acquireLock_negative_ttl random36 key t rs rd w :
  key <> ""%string -> redisClient (w_env w) = true -> t < 0 ->
  Lock.acquireLock random36 key
    {| Lock.ttl := Some t; Lock.retries := rs; Lock.retryDelay := rd |} w
  = (Throw (Error "Lock TTL must be positive"), w).
Proof.
  intros Hkey Hready Ht. unfold Lock.acquireLock.
  apply String.eqb_neq in Hkey. rewrite Hkey.
  unfold mbind, M_bind. rewrite getCacheClient_ready by done.
  unfold Date_now. cbn [Lock.ttl or_default].
  destruct (t =? 0) eqn:E0; [apply Z.eqb_eq in E0; lia|].
  destruct (t <? 1) eqn:E1; [done|]. apply Z.ltb_ge in E1. lia.
Qed.

(** C7, at the failing input.  [ttl: 0] is taken for a missing ttl: the
    call is the call without the option, no error is raised, and on a
    free key the lock is set with the default 10000 ms. *)
Theorem acquireLock_ttl_zero :
  (forall random36 key rs rd,
     Lock.acquireLock random36 key
       {| Lock.ttl := Some 0; Lock.retries := rs; Lock.retryDelay := rd |}
     = Lock.acquireLock random36 key
         {| Lock.ttl := None; Lock.retries := rs; Lock.retryDelay := rd |}) /\
  let w := init_world ∅ 1700000000000 in
  let r := Lock.acquireLock "0.4fzyo82mvyr" "res"
             {| Lock.ttl := Some 0; Lock.retries := None; Lock.retryDelay := None |} w in
  r.1 = Return (Some "1700000000000-4fzyo82mvyr"%string) /\
  trace r.2 = [EvStore (SET_PX_NX "lock:res" "1700000000000-4fzyo82mvyr" 10000) ROk].
Proof. split; [reflexivity|]. vm_compute. done. Qed.

(** ** releaseLock and extendLock *)

Lemma get_string t (d : Redis.db) k :
  holds_zset t d k = false -> Redis.get t k d = (inr (holder t d k), d).
Proof.
  unfold holds_zset, holder, Redis.get.
  destruct (Redis.live t d k) as [[[s|zs] ex]|]; done.
Qed.

Lemma holder_Some t (d : Redis.db) k s :
  holder t d k = Some s -> exists ex, Redis.live t d k = Some (Redis.Entry (Redis.VString s) ex).
Proof.
  unfold holder. destruct (Redis.live t d k) as [[[s'|zs] ex]|]; try done.
  intros [= ->]. by exists ex.
Qed.

Section Ownership.

Variables (key token : string) (w : world).

Let lockKey := "lock:" +:+ key.
Let now := clock (w_env w).
Let st := store (w_env w).

Hypothesis ready : redisClient (w_env w) = true.
Hypothesis typed : holds_zset now st lockKey = false.

Lemma releaseLock_mismatch :
  holder now st lockKey <> Some token ->
  Lock.releaseLock key token w
    = (Return false, log (EvStore (EVAL_release lockKey token) (RInteger 0)) w).
Proof.
  intros Hne. unfold Lock.releaseLock, mbind, M_bind.
  rewrite getCacheClient_ready by done.
  unfold send, Lock.release_script, Redis.bind, Redis.ret.
  rewrite get_string by done.
  destruct (decide (holder _ _ _ = Some token)) as [?|_]; [done|].
  by rewrite set_store_id.
Qed.

Lemma extendLock_mismatch ttl :
  holder now st lockKey <> Some token ->
  Lock.extendLock key token ttl w
    = (Return false, log (EvStore (EVAL_extend lockKey token ttl) (RInteger 0)) w).
Proof.
  intros Hne. unfold Lock.extendLock, mbind, M_bind.
  rewrite getCacheClient_ready by done.
  unfold send, Lock.extend_script, Redis.bind, Redis.ret.
  rewrite get_string by done.
  destruct (decide (holder _ _ _ = Some token)) as [?|_]; [done|].
  by rewrite set_store_id.
Qed.

Lemma releaseLock_match :
  holder now st lockKey = Some token ->
  Lock.releaseLock key token w
    = (Return true,
       log (EvStore (EVAL_release lockKey token) (RInteger 1))
         (set_store (delete lockKey st) w)).
Proof.
  intros Heq. destruct (holder_Some _ _ _ _ Heq) as [ex Hl].
  unfold Lock.releaseLock, mbind, M_bind.
  rewrite getCacheClient_ready by done.
  unfold send, Lock.release_script, Redis.bind, Redis.ret.
  rewrite get_string by done.
  destruct (decide (holder _ _ _ = Some token)) as [_|?]; [|done].
  unfold Redis.del. fold lockKey now st. by rewrite Hl.
Qed.

Lemma extendLock_match ttl :
  holder now st lockKey = Some token ->
  exists w',
    Lock.extendLock key token ttl w = (Return true, w') /\
    appended w w' [EvStore (EVAL_extend lockKey token ttl) (RInteger 1)] /\
    (forall k, k <> lockKey -> store (w_env w') !! k = st !! k) /\
    (forall t, now <= t ->
       Redis.live t (store (w_env w')) lockKey =
       if (0 <? ttl) && (t <=? now + ttl)
       then Some (Redis.Entry (Redis.VString token) (Some (now + ttl)))
       else None).
Proof.
  intros Heq. destruct (holder_Some _ _ _ _ Heq) as [ex Hl].
  unfold Lock.extendLock, mbind, M_bind.
  rewrite getCacheClient_ready by done.
  unfold send, Lock.extend_script, Redis.bind, Redis.ret.
  rewrite get_string by done.
  destruct (decide (holder _ _ _ = Some token)) as [_|?]; [|done].
  unfold Redis.pexpire. fold lockKey now st. rewrite Hl. cbn [Redis.e_value].
  destruct (ttl <=? 0) eqn:Et.
  - apply Z.leb_le in Et. eexists. split; [reflexivity|].
    split; [done|]. split.
    { intros k Hk. cbn. by rewrite lookup_delete_ne. }
    intros t Ht. cbn. rewrite live_delete_eq.
    destruct (0 <? ttl) eqn:E; [|done].
    apply Z.ltb_lt in E. lia.
  - apply Z.leb_gt in Et. eexists. split; [reflexivity|].
    split; [done|]. split.
    { intros k Hk. cbn. by rewrite lookup_insert_ne. }
    intros t Ht. cbn. unfold Redis.live. rewrite lookup_insert_eq.
    unfold Redis.expired. cbn.
    assert ((0 <? ttl) = true) as -> by (apply Z.ltb_lt; lia). cbn.
    destruct (t <=? now + ttl) eqn:E.
    + apply Z.leb_le in E.
      destruct (now + ttl <? t) eqn:E'; [|done].
      apply Z.ltb_lt in E'. lia.
    + apply Z.leb_gt in E.
      destruct (now + ttl <? t) eqn:E'; [done|].
      apply Z.ltb_ge in E'. lia.
Qed.

End Ownership.

(** C5. With the client initialised and the lock key not holding a
    sorted set: when the string stored under the key is not the
    presented token (or nothing is stored), [releaseLock] and
    [extendLock] return false, raise nothing, and leave the whole store
    as it was; when it is the token, [releaseLock] deletes the key and
    returns true, and [extendLock] returns true, keeps the value, makes
    the key expire [ttl] ms after the call and touches no other key. *)
Theorem release_extend_ownership key token ttl w :
  let lockKey := "lock:" +:+ key in
  let now := clock (w_env w) in
  let st := store (w_env w) in
  redisClient (w_env w) = true ->
  holds_zset now st lockKey = false ->
  (holder now st lockKey <> Some token ->
   Lock.releaseLock key token w
     = (Return false, log (EvStore (EVAL_release lockKey token) (RInteger 0)) w) /\
   Lock.extendLock key token ttl w
     = (Return false, log (EvStore (EVAL_extend lockKey token ttl) (RInteger 0)) w))
  /\
  (holder now st lockKey = Some token ->
   Lock.releaseLock key token w
     = (Return true,
        log (EvStore (EVAL_release lockKey token) (RInteger 1))
          (set_store (delete lockKey st) w)) /\
   exists w',
     Lock.extendLock key token ttl w = (Return true, w') /\
     appended w w' [EvStore (EVAL_extend lockKey token ttl) (RInteger 1)] /\
     (forall k, k <> lockKey -> store (w_env w') !! k = st !! k) /\
     (forall t, now <= t ->
        Redis.live t (store (w_env w')) lockKey =
        if (0 <? ttl) && (t <=? now + ttl)
        then Some (Redis.Entry (Redis.VString token) (Some (now + ttl)))
        else None)).
Proof.
  cbv zeta. intros Hready Hty. split.
  - intros Hne. split.
    + by apply releaseLock_mismatch.
    + by apply extendLock_mismatch.
  - intros Heq. split.
    + by apply releaseLock_match.
    + by apply extendLock_match.
Qed.

(** The lock on [res] is held with token "1700000000000-4fzyo82mvyr": a
    stranger's token changes nothing, the holder's token extends it. *)
Lemma release_extend_ownership_witness :
  let tok := "1700000000000-4fzyo82mvyr"%string in
  let w := init_world (held_store tok 1700000010000) 1700000000500 in
  (Lock.releaseLock "res" "stale" w
     = (Return false, log (EvStore (EVAL_release "lock:res" "stale") (RInteger 0)) w) /\
   Lock.extendLock "res" "stale" 30000 w
     = (Return false, log (EvStore (EVAL_extend "lock:res" "stale" 30000) (RInteger 0)) w))
  /\
  (Lock.releaseLock "res" tok w
     = (Return true,
        log (EvStore (EVAL_release "lock:res" tok) (RInteger 1))
          (set_store (delete "lock:res"%string (store (w_env w))) w)) /\
   exists w',
     Lock.extendLock "res" tok 30000 w = (Return true, w') /\
     appended w w' [EvStore (EVAL_extend "lock:res" tok 30000) (RInteger 1)] /\
     (forall k, k <> "lock:res"%string -> store (w_env w') !! k = store (w_env w) !! k) /\
     (forall t, 1700000000500 <= t ->
        Redis.live t (store (w_env w')) "lock:res" =
        if (0 <? 30000) && (t <=? 1700000000500 + 30000)
        then Some (Redis.Entry (Redis.VString tok) (Some (1700000000500 + 30000)))
        else None)).
Proof.
  intros tok w. split.
  - apply (release_extend_ownership "res" "stale" 30000 w).
    + reflexivity.
    + reflexivity.
    + vm_compute. discriminate.
  - apply (release_extend_ownership "res" tok 30000 w).
    + reflexivity.
    + reflexivity.
    + reflexivity.
Defined.

(** ** Functions without validation *)

(** A request is logged once, whatever the store answers, and what it
    may throw is the store's error reply. *)
Lemma send_logged {A} (c : command) (run : Z -> Redis.script A) show w :
  exists o w' r,
    send c run show w = (o, w') /\
    appended w w' [EvStore c r] /\
    (forall msg, o <> Throw (Error msg)) /\
    store (w_env w') = (run (clock (w_env w)) (store (w_env w))).2.
Proof.
  unfold send. destruct (run _ _) as [[err|a] d].
  - by exists (Throw (ReplyError err)), (log (EvStore c (RError err)) (set_store d w)),
      (RError err).
  - by exists (Return a), (log (EvStore c (show a)) (set_store d w)), (show a).
Qed.

(** C10.  With the client initialised, for all arguments (empty strings
    and non-positive ttl included) [resetRateLimit], [releaseLock] and
    [extendLock] send exactly one request to the store, on the key built
    from their arguments as given, and raise no [Error] of their own;
    [resetRateLimit] returns normally with the key deleted. *)
Theorem no_validation identifier key token ttl w :
  redisClient (w_env w) = true ->
  (exists w' r,
     RateLimit.resetRateLimit identifier key w = (Return tt, w') /\
     appended w w' [EvStore (DEL ("ratelimit:" +:+ key +:+ ":" +:+ identifier)) r] /\
     store (w_env w') = delete ("ratelimit:" +:+ key +:+ ":" +:+ identifier) (store (w_env w)))
  /\
  (exists o w' r,
     Lock.releaseLock key token w = (o, w') /\
     appended w w' [EvStore (EVAL_release ("lock:" +:+ key) token) r] /\
     forall msg, o <> Throw (Error msg))
  /\
  (exists o w' r,
     Lock.extendLock key token ttl w = (o, w') /\
     appended w w' [EvStore (EVAL_extend ("lock:" +:+ key) token ttl) r] /\
     forall msg, o <> Throw (Error msg)).
Proof.
  intros Hready. split; [|split].
  - unfold RateLimit.resetRateLimit, mbind, M_bind.
    rewrite getCacheClient_ready by done.
    unfold send, Redis.del.
    destruct (Redis.live _ _ _); eexists; eexists; (split; [reflexivity|]); done.
  - unfold Lock.releaseLock, mbind, M_bind.
    rewrite getCacheClient_ready by done.
    destruct (send_logged (EVAL_release ("lock:" +:+ key) token)
                (fun t => Lock.release_script t ("lock:" +:+ key) token) RInteger w)
      as (o & w' & r & -> & Htr & Hne & _).
    destruct o as [a|e].
    + exists (Return (a =? 1)), w', r. done.
    + exists (Throw e), w', r. split; [done|]. split; [done|].
      intros msg [= ->]. by apply (Hne msg).
  - unfold Lock.extendLock, mbind, M_bind.
    rewrite getCacheClient_ready by done.
    destruct (send_logged (EVAL_extend ("lock:" +:+ key) token ttl)
                (fun t => Lock.extend_script t ("lock:" +:+ key) token ttl) RInteger w)
      as (o & w' & r & -> & Htr & Hne & _).
    destruct o as [a|e].
    + exists (Return (a =? 1)), w', r. done.
    + exists (Throw e), w', r. split; [done|]. split; [done|].
      intros msg [= ->]. by apply (Hne msg).
Qed.

(** [resetRateLimit("", "")] deletes the store key "ratelimit::";
    [releaseLock("", "")] and [extendLock("", "", 0)] reach the store on
    the key "lock:". *)
Lemma no_validation_witness :
  let w := init_world ∅ 1700000000000 in
  (exists w' r,
     RateLimit.resetRateLimit "" "" w = (Return tt, w') /\
     appended w w' [EvStore (DEL "ratelimit::") r] /\
     store (w_env w') = delete "ratelimit::"%string (store (w_env w)))
  /\
  (exists o w' r,
     Lock.releaseLock "" "" w = (o, w') /\
     appended w w' [EvStore (EVAL_release "lock:" "") r] /\
     forall msg, o <> Throw (Error msg))
  /\
  (exists o w' r,
     Lock.extendLock "" "" 0 w = (o, w') /\
     appended w w' [EvStore (EVAL_extend "lock:" "" 0) r] /\
     forall msg, o <> Throw (Error msg)).
Proof.
  intros w. apply (no_validation "" "" "" 0 w). reflexivity.
Defined.

(** ** withLock *)

Lemma token_nonempty a b : a +:+ "-" +:+ b <> ""%string.
Proof. by destruct a. Qed.

(** [acquireLock] never runs a callback. *)
Lemma acquireLock_no_call random36 key options w o w' :
  Lock.acquireLock random36 key options w = (o, w') ->
  exists evs, appended w w' evs /\ calls evs = 0%nat.
Proof.
  intros Hrun.
  destruct (acquireLock_cases random36 key options w)
    as [[msg Hm]|[Hn|(Hk & Hready & Ht & Hr)]].
  - rewrite Hm in Hrun. injection Hrun as _ <-.
    exists []. split; [|done]. unfold appended. by rewrite app_nil_r.
  - rewrite Hn in Hrun. injection Hrun as _ <-.
    exists []. split; [|done]. unfold appended. by rewrite app_nil_r.
  - destruct (acquireLock_run random36 key options w Hk Hready Ht Hr)
      as (j & ok & w'' & Hrun' & _ & Htr & _).
    rewrite Hrun in Hrun'. injection Hrun' as _ <-.
    eexists. split; [exact Htr|].
    rewrite calls_app, calls_failed_rounds. done.
Qed.

(** What [releaseLock] does to the log and to the lock, in general. *)
Lemma releaseLock_effect key tok w :
  exists ro w' evs,
    Lock.releaseLock key tok w = (ro, w') /\
    appended w w' evs /\ calls evs = 0%nat /\
    (redisClient (w_env w) = true ->
     holds_zset (clock (w_env w)) (store (w_env w)) ("lock:" +:+ key) = false ->
     exists b r,
       ro = Return b /\
       evs = [EvStore (EVAL_release ("lock:" +:+ key) tok) r] /\
       clock (w_env w') = clock (w_env w) /\
       holder (clock (w_env w')) (store (w_env w')) ("lock:" +:+ key) <> Some tok).
Proof.
  destruct (redisClient (w_env w)) eqn:Hready; cycle 1.
  { unfold Lock.releaseLock, mbind, M_bind, getCacheClient. rewrite Hready.
    eexists _, w, []. split; [reflexivity|]. split.
    { unfold appended. by rewrite app_nil_r. }
    split; [done|]. done. }
  destruct (holds_zset (clock (w_env w)) (store (w_env w)) ("lock:" +:+ key)) eqn:Hty.
  { unfold Lock.releaseLock, mbind, M_bind. rewrite getCacheClient_ready by done.
    destruct (send_logged (EVAL_release ("lock:" +:+ key) tok)
                (fun t => Lock.release_script t ("lock:" +:+ key) tok) RInteger w)
      as (o & w' & r & -> & Htr & _).
    destruct o as [a|e]; eexists _, w', _; (split; [reflexivity|]);
      (split; [exact Htr|]); done. }
  destruct (decide (holder (clock (w_env w)) (store (w_env w)) ("lock:" +:+ key)
                    = Some tok)) as [Heq|Hne].
  - rewrite (releaseLock_match key tok w Hready Hty Heq).
    eexists _, _, _. split; [reflexivity|]. split; [reflexivity|]. split; [done|].
    intros _ _. eexists _, _. split; [reflexivity|]. split; [reflexivity|].
    split; [done|]. cbn. unfold holder. by rewrite live_delete_eq.
  - rewrite (releaseLock_mismatch key tok w Hready Hty Hne).
    eexists _, _, _. split; [reflexivity|]. split; [reflexivity|]. split; [done|].
    intros _ _. eexists _, _. split; [reflexivity|]. split; [reflexivity|].
    split; [done|]. done.
Qed.

(** C6.  (a) When [acquireLock] grants a token, [withLock] calls [fn]
    exactly once, then runs [releaseLock] with that token whether [fn]
    returned or threw; when the release itself raises nothing (which is
    the case as soon as the client is still initialised and the key
    holds no sorted set after [fn]), the outcome of [withLock] is the
    outcome of [fn], value or error, the release request is the last
    thing sent, and the token no longer holds the lock.  (b) When
    [acquireLock] returns null, [withLock] throws "Failed to acquire
    lock: <key>" and [fn] is not called. *)
Theorem withLock_scoped {T} random36 key (fn : env -> outcome T * env) options w :
  (forall tok w1 o e2,
     Lock.acquireLock random36 key options w = (Return (Some tok), w1) ->
     fn (w_env w1) = (o, e2) ->
     let w2 := World e2 (trace w1 ++ [EvCall]) in
     exists ro w3 evs,
       Lock.releaseLock key tok w2 = (ro, w3) /\
       Lock.withLock random36 key fn options w
         = (match ro with Return _ => o | Throw e => Throw e end, w3) /\
       appended w w3 evs /\
       calls evs = 1%nat /\
       (redisClient e2 = true ->
        holds_zset (clock e2) (store e2) ("lock:" +:+ key) = false ->
        exists b r,
          ro = Return b /\
          Lock.withLock random36 key fn options w = (o, w3) /\
          last evs = Some (EvStore (EVAL_release ("lock:" +:+ key) tok) r) /\
          holder (clock (w_env w3)) (store (w_env w3)) ("lock:" +:+ key) <> Some tok))
  /\
  (forall w1,
     Lock.acquireLock random36 key options w = (Return None, w1) ->
     Lock.withLock random36 key fn options w
       = (Throw (Error ("Failed to acquire lock: " +:+ key)), w1) /\
     exists evs, appended w w1 evs /\ calls evs = 0%nat).
Proof.
  split.
  - intros tok w1 o e2 Hacq Hfn w2.
    destruct (acquireLock_no_call _ _ _ _ _ _ Hacq) as (evs1 & Htr1 & Hc1).
    destruct (acquireLock_granted _ _ _ _ _ _ Hacq) as (Htok & _).
    destruct (releaseLock_effect key tok w2) as (ro & w3 & evs3 & Hrel & Htr3 & Hc3 & Hok).
    assert (Lock.withLock random36 key fn options w
            = (match ro with Return _ => o | Throw e => Throw e end, w3)) as Hwith.
    { unfold Lock.withLock, mbind, M_bind. rewrite Hacq.
      assert (falsy (Some tok) = false) as ->.
      { pose proof (token_nonempty (dec (clock (w_env w)))
                      (substring_from 2 random36)) as Hne.
        rewrite <- Htok in Hne. by destruct tok. }
      unfold try_finally, call. rewrite Hfn. fold w2. rewrite Hrel.
      by destruct ro. }
    exists ro, w3, (evs1 ++ [EvCall] ++ evs3).
    split; [done|]. split; [done|]. split.
    { unfold appended in *. rewrite Htr3. subst w2. cbn. rewrite Htr1.
      by rewrite <- !app_assoc. }
    split.
    { rewrite !calls_app, Hc1, Hc3. done. }
    intros Hready Hty. destruct (Hok Hready Hty) as (b & r & -> & -> & Hck & Hh).
    exists b, r. split; [done|]. split; [done|]. split; [|done].
    by rewrite !app_assoc, last_snoc.
  - intros w1 Hacq. split.
    + unfold Lock.withLock, mbind, M_bind. by rewrite Hacq.
    + by eapply acquireLock_no_call.
Qed.

(** On a free key, a lock on [res] is taken, the failing callback runs
    once, the error comes out and the lock is gone. *)
Lemma withLock_scoped_witness :
  let w := init_world ∅ 1700000000000 in
  let fn := fun e : env => (@Throw unit (Error "boom"), e) in
  let tok := "1700000000000-4fzyo82mvyr"%string in
  let w1 := (Lock.acquireLock "0.4fzyo82mvyr" "res" Lock.no_options w).2 in
  let w2 := World (w_env w1) (trace w1 ++ [EvCall]) in
  exists ro w3 evs,
    Lock.releaseLock "res" tok w2 = (ro, w3) /\
    Lock.withLock "0.4fzyo82mvyr" "res" fn Lock.no_options w
      = (match ro with Return _ => Throw (Error "boom") | Throw e => Throw e end, w3) /\
    appended w w3 evs /\
    calls evs = 1%nat /\
    (redisClient (w_env w1) = true ->
     holds_zset (clock (w_env w1)) (store (w_env w1)) "lock:res" = false ->
     exists b r,
       ro = Return b /\
       Lock.withLock "0.4fzyo82mvyr" "res" fn Lock.no_options w
         = (Throw (Error "boom"), w3) /\
       last evs = Some (EvStore (EVAL_release "lock:res" tok) r) /\
       holder (clock (w_env w3)) (store (w_env w3)) "lock:res" <> Some tok).
Proof.
  intros w fn tok w1 w2.
  apply (proj1 (withLock_scoped "0.4fzyo82mvyr" "res" fn Lock.no_options w)
           tok w1 (Throw (Error "boom")) (w_env w1)).
  - vm_compute. reflexivity.
  - reflexivity.
Defined.

(** ** Sorted sets *)

Section ZSetFacts.

Import Redis.

Lemma zkeep_In lo hi zs p :
  In p (zkeep lo hi zs) <-> In p zs /\ (p.2 < lo \/ hi < p.2).
Proof.
  unfold zkeep. rewrite List.filter_In. unfold in_range.
  split; intros [Hin H]; (split; [done|]).
  - apply negb_true_iff, andb_false_iff in H.
    destruct H as [H|H]; [left; by apply Z.leb_gt|right; by apply Z.leb_gt].
  - apply negb_true_iff, andb_false_iff.
    destruct H as [H|H]; [left|right]; by apply Z.leb_gt.
Qed.

(** Pruning removes exactly the scores of the closed range. *)
Lemma zkeep_removed lo hi zs p :
  In p zs -> lo <= p.2 <= hi -> ~ In p (zkeep lo hi zs).
Proof. intros _ Hr [_ H]%zkeep_In. lia. Qed.



Lemma zfirst_In zs p : zfirst zs = Some p -> In p zs.
Proof.
  revert p. induction zs as [|q zs IH]; intros p; [done|]. cbn.
  destruct (zfirst zs) as [r|].
  - destruct (zlt r q); intros [= <-]; [right; by apply IH|by left].
  - intros [= <-]. by left.
Qed.


Lemma zfirst_is_Some zs : zs <> [] -> is_Some (zfirst zs).
Proof.
  destruct zs as [|p zs]; [done|]. intros _. cbn.
  destruct (zfirst zs) as [r|]; [destruct (zlt r p)|]; by eexists.
Qed.

End ZSetFacts.

(** ** The rate-limit script *)

Section ScriptFacts.

Import Redis.

Lemma live_not_expired t (d : db) k e : live t d k = Some e -> expired t e = false.
Proof.
  unfold live. destruct (d !! k) as [e0|]; [|done].
  destruct (expired t e0) eqn:E; [done|]. by intros [= <-].
Qed.

Lemma live_insert_eq t (d : db) k e :
  expired t e = false -> live t (<[k := e]> d) k = Some e.
Proof. intros He. unfold live. by rewrite lookup_insert_eq, He. Qed.

Lemma expired_fresh t ttl v : 0 < ttl -> expired t (Entry v (Some (t + ttl))) = false.
Proof. intros H. unfold expired. cbn. apply Z.ltb_ge. lia. Qed.

Variables (luaRandom : string) (t : Z) (key : string).
Variables (now windowStart limit window : Z).

(** The transaction on a key that holds a sorted set or nothing: it
    counts what pruning keeps, admits below the limit, and leaves under
    the key the kept entries, with the new one when it admits. *)
Lemma rateLimit_script_spec (d : db) :
  holds_string t d key = false ->
  1 <= window ->
  let kept := zkeep 0 windowStart (zset_at t d key) in
  let count := Z.of_nat (length kept) in
  let member := dec now +:+ "-" +:+ luaRandom in
  exists d',
    RateLimit.rateLimit_script luaRandom t key now windowStart limit window d
      = (inr (if count <? limit then 1 else 0, count), d') /\
    holds_string t d' key = false /\
    zset_at t d' key = (if count <? limit then zinsert member now kept else kept) /\
    (forall k, k <> key -> d' !! k = d !! k).
Proof.
  intros Hty Hwin. cbv zeta.
  assert (0 < window * 1000) as Hw by lia.
  assert ((window * 1000 <=? 0) = false) as Hwb by (apply Z.leb_gt; lia).
  unfold RateLimit.rateLimit_script, bind, zremrangebyscore, holds_string, zset_at in *.
  destruct (live t d key) as [[[s|zs] ex]|] eqn:Hl; [done| |].
  - pose proof (live_not_expired _ _ _ _ Hl) as Hex.
    destruct (zkeep 0 windowStart zs) as [|p kept] eqn:Hk.
    + unfold zcard. rewrite live_delete_eq. cbn [length].
      change (Z.of_nat 0) with 0.
      destruct (0 <? limit) eqn:Hlim.
      * unfold zadd. rewrite live_delete_eq.
        unfold expire, pexpire. rewrite live_insert_eq by done.
        rewrite Hwb. cbn [e_value ret].
        eexists. split; [reflexivity|].
        rewrite live_insert_eq by (by apply expired_fresh).
        split; [done|]. split; [done|].
        intros k Hk'. by rewrite !lookup_insert_ne, lookup_delete_ne.
      * eexists. split; [reflexivity|]. rewrite live_delete_eq.
        split; [done|]. split; [done|].
        intros k Hk'. by rewrite lookup_delete_ne.
    + unfold zcard. rewrite live_insert_eq by done.
      destruct (Z.of_nat (length (p :: kept)) <? limit) eqn:Hlim.
      * unfold zadd. rewrite live_insert_eq by done.
        unfold expire, pexpire. rewrite live_insert_eq by done.
        rewrite Hwb. cbn [e_value ret].
        eexists. split; [reflexivity|].
        rewrite live_insert_eq by (by apply expired_fresh).
        split; [done|]. split; [done|].
        intros k Hk'. by rewrite !lookup_insert_ne.
      * eexists. split; [reflexivity|]. rewrite live_insert_eq by done.
        split; [done|]. split; [done|].
        intros k Hk'. by rewrite lookup_insert_ne.
  - cbn [zkeep List.filter length]. unfold zcard. rewrite Hl.
    change (Z.of_nat 0) with 0.
    destruct (0 <? limit) eqn:Hlim.
    + unfold zadd. rewrite Hl.
      unfold expire, pexpire. rewrite live_insert_eq by done.
      rewrite Hwb. cbn [e_value ret].
      eexists. split; [reflexivity|].
      rewrite live_insert_eq by (by apply expired_fresh).
      split; [done|]. split; [done|].
      intros k Hk'. by rewrite !lookup_insert_ne.
    + eexists. split; [reflexivity|]. rewrite Hl.
      split; [done|]. split; [done|]. done.
Qed.

End ScriptFacts.

Lemma zrange_first_spec t (d : Redis.db) k :
  holds_string t d k = false ->
  Redis.zrange_first t k d = (inr (Redis.zfirst (zset_at t d k)), d).
Proof.
  unfold holds_string, zset_at, Redis.zrange_first.
  by destruct (Redis.live t d k) as [[[s|zs] ex]|].
Qed.

(** ** checkRateLimit *)

Section CheckRateLimit.

Variables (luaRandom identifier : string) (options : RateLimit.RateLimitOptions).
Variable w : world.

(** The constants of the body of [checkRateLimit], and what the
    transaction finds and keeps under the key. *)
Let limit := RateLimit.limit options.
Let window := RateLimit.window options.
Let key := "ratelimit:" +:+ RateLimit.key options +:+ ":" +:+ identifier.
Let now := clock (w_env w).
Let windowStart := now - window * 1000.
Let kept := Redis.zkeep 0 windowStart (zset_at now (store (w_env w)) key).
Let count := Z.of_nat (length kept).
Let member := dec now +:+ "-" +:+ luaRandom.

Hypothesis identifier_ok : identifier <> ""%string.
Hypothesis key_ok : RateLimit.key options <> ""%string.
Hypothesis limit_ok : 1 <= limit.
Hypothesis window_ok : 1 <= window.
Hypothesis ready : redisClient (w_env w) = true.
Hypothesis typed : holds_string now (store (w_env w)) key = false.

Lemma checkRateLimit_valid :
  RateLimit.checkRateLimit luaRandom identifier options w =
  (result ← send (EVAL_rateLimit key now windowStart limit window)
              (fun t => RateLimit.rateLimit_script luaRandom t key now windowStart
                          limit window)
              RateLimit.show_pair;
   let allowed := result.1 =? 1 in
   let count := result.2 in
   let remaining := Z.max 0 (limit - count - (if allowed then 1 else 0)) in
   let resetAt := now + window * 1000 in
   if negb allowed then
     oldestRequest ← send (ZRANGE_0_0_WITHSCORES key)
                       (fun t => Redis.zrange_first t key) RateLimit.show_first;
     let oldestTimestamp :=
       match oldestRequest with
       | Some (_, score) => score
       | None => now
       end in
     let retryAfter := Z.max 0 (oldestTimestamp + window * 1000 - now) in
     mret {| RateLimit.allowed := false; RateLimit.remaining := 0;
             RateLimit.resetAt := resetAt;
             RateLimit.retryAfter := Some retryAfter |}
   else
     mret {| RateLimit.allowed := true; RateLimit.remaining := remaining;
             RateLimit.resetAt := resetAt; RateLimit.retryAfter := None |}) w.
Proof.
  unfold RateLimit.checkRateLimit.
  apply String.eqb_neq in identifier_ok, key_ok.
  rewrite identifier_ok, key_ok.
  fold limit window.
  destruct (limit <? 1) eqn:E1; [apply Z.ltb_lt in E1; lia|].
  destruct (window <? 1) eqn:E2; [apply Z.ltb_lt in E2; lia|].
  unfold mbind at 1, M_bind at 1. rewrite getCacheClient_ready by done.
  unfold mbind at 1, M_bind at 1. unfold Date_now. done.
Qed.

(** A valid call below the limit is admitted and its entry recorded. *)
Lemma checkRateLimit_admits :
  count < limit ->
  exists w',
    RateLimit.checkRateLimit luaRandom identifier options w =
      (Return {| RateLimit.allowed := true;
                 RateLimit.remaining := Z.max 0 (limit - count - 1);
                 RateLimit.resetAt := now + window * 1000;
                 RateLimit.retryAfter := None |}, w') /\
    appended w w'
      [EvStore (EVAL_rateLimit key now windowStart limit window) (RIntegers [1; count])] /\
    zset_at now (store (w_env w')) key = Redis.zinsert member now kept /\
    (forall k, k <> key -> store (w_env w') !! k = store (w_env w) !! k).
Proof.
  intros Hlt. rewrite checkRateLimit_valid.
  destruct (rateLimit_script_spec luaRandom now key now windowStart limit window
              (store (w_env w)) typed window_ok) as (d' & Hrun & Hty' & Hz & Hfr).
  fold kept count member in Hrun, Hz.
  assert ((count <? limit) = true) as Hb by (by apply Z.ltb_lt).
  rewrite Hb in Hrun, Hz.
  unfold mbind, M_bind, send. fold now. rewrite Hrun. cbn.
  eexists. split; [reflexivity|]. done.
Qed.

(** A valid call at the limit is rejected; the store keeps what pruning
    kept, and the retry delay is computed from its first entry. *)
Lemma checkRateLimit_rejects :
  limit <= count ->
  exists w',
    RateLimit.checkRateLimit luaRandom identifier options w =
      (Return {| RateLimit.allowed := false;
                 RateLimit.remaining := 0;
                 RateLimit.resetAt := now + window * 1000;
                 RateLimit.retryAfter :=
                   Some (Z.max 0
                           (match Redis.zfirst kept with
                            | Some (_, score) => score
                            | None => now
                            end + window * 1000 - now)) |}, w') /\
    appended w w'
      [EvStore (EVAL_rateLimit key now windowStart limit window) (RIntegers [0; count]);
       EvStore (ZRANGE_0_0_WITHSCORES key) (RateLimit.show_first (Redis.zfirst kept))] /\
    zset_at now (store (w_env w')) key = kept /\
    (forall k, k <> key -> store (w_env w') !! k = store (w_env w) !! k).
Proof.
  intros Hge. rewrite checkRateLimit_valid.
  destruct (rateLimit_script_spec luaRandom now key now windowStart limit window
              (store (w_env w)) typed window_ok) as (d' & Hrun & Hty' & Hz & Hfr).
  fold kept count member in Hrun, Hz.
  assert ((count <? limit) = false) as Hb by (by apply Z.ltb_ge).
  rewrite Hb in Hrun, Hz.
  unfold mbind, M_bind, send. fold now. rewrite Hrun.
  cbn [fst snd negb Z.eqb log set_store w_env store clock redisClient trace].
  fold now. rewrite zrange_first_spec by done. rewrite Hz.
  eexists. split; [reflexivity|]. unfold appended. cbn.
  split; [by rewrite <- app_assoc|]. done.
Qed.

End CheckRateLimit.

(** ** checkRateLimit among other clients *)

Lemma arrive_nil w : arrive [] w = (Return tt, w).
Proof. unfold arrive. cbn. by destruct w as [[? ? ?] ?]. Qed.

(** With nothing arriving during its waits, the call is the call that
    runs alone. *)
Lemma Interleaved_alone luaRandom identifier options w :
  Interleaved.checkRateLimit [] [] luaRandom identifier options w
  = RateLimit.checkRateLimit luaRandom identifier options w.
Proof.
  unfold Interleaved.checkRateLimit, RateLimit.checkRateLimit.
  destruct (String.eqb identifier ""); [done|].
  destruct (String.eqb (RateLimit.key options) ""); [done|].
  destruct (RateLimit.limit options <? 1); [done|].
  destruct (RateLimit.window options <? 1); [done|].
  unfold mbind, M_bind. destruct (getCacheClient w) as [[[]|e] w1]; [|done].
  unfold Date_now. rewrite arrive_nil.
  destruct (send _ _ _ w1) as [[r|e] w2]; [|done].
  destruct (negb (r.1 =? 1)); [|done].
  by rewrite arrive_nil.
Qed.




(** C4 (as amended).  The transaction of a valid call removes exactly
    the entries whose timestamp lies in [0, now - window*1000], both ends
    included, before counting: such an entry is gone; every other entry,
    in particular every one younger than [now - window*1000], is kept
    and counted; the count reported is the number of kept entries, and
    the window afterwards holds them, with the new entry when the call is
    admitted. *)
Theorem checkRateLimit_prunes luaRandom identifier options w :
  let limit := RateLimit.limit options in
  let window := RateLimit.window options in
  let key := "ratelimit:" +:+ RateLimit.key options +:+ ":" +:+ identifier in
  let now := clock (w_env w) in
  let zs := zset_at now (store (w_env w)) key in
  let kept := Redis.zkeep 0 (now - window * 1000) zs in
  identifier <> ""%string ->
  RateLimit.key options <> ""%string ->
  1 <= limit ->
  1 <= window ->
  redisClient (w_env w) = true ->
  holds_string now (store (w_env w)) key = false ->
  (forall p, In p zs -> 0 <= p.2 <= now - window * 1000 -> ~ In p kept) /\
  (forall p, In p zs -> now - window * 1000 < p.2 -> In p kept) /\
  (forall p, In p kept <-> In p zs /\ (p.2 < 0 \/ now - window * 1000 < p.2)) /\
  exists res w' evs,
    RateLimit.checkRateLimit luaRandom identifier options w = (Return res, w') /\
    appended w w'
      (EvStore (EVAL_rateLimit key now (now - window * 1000) limit window)
         (RIntegers [if RateLimit.allowed res then 1 else 0;
                     Z.of_nat (length kept)]) :: evs) /\
    zset_at now (store (w_env w')) key
      = (if RateLimit.allowed res
         then Redis.zinsert (dec now +:+ "-" +:+ luaRandom) now kept
         else kept).
Proof.
  cbv zeta. intros Hid Hkey Hlim Hwin Hready Hty.
  split; [intros p Hp Hr; by apply zkeep_removed|].
  split; [intros p Hp Hr; apply zkeep_In; split; [done|by right]|].
  split; [intros p; apply zkeep_In|].
  set (kept := Redis.zkeep _ _ _).
  destruct (Z_lt_le_dec (Z.of_nat (length kept)) (RateLimit.limit options)) as [Hlt|Hge].
  - destruct (checkRateLimit_admits luaRandom identifier options w
                Hid Hkey Hlim Hwin Hready Hty Hlt) as (w' & Hrun & Htr & Hz & _).
    eexists _, w', []. split; [exact Hrun|]. split; [exact Htr|]. exact Hz.
  - destruct (checkRateLimit_rejects luaRandom identifier options w
                Hid Hkey Hlim Hwin Hready Hty Hge) as (w' & Hrun & Htr & Hz & _).
    eexists _, w', [_]. split; [exact Hrun|]. split; [exact Htr|]. exact Hz.
Qed.

(** Limit 2, window 1 s, at 1700000001000, on entries stamped exactly
    one window ago and half a window ago. *)
Lemma checkRateLimit_prunes_witness :
  let zs := [("1700000000000-0.1"%string, 1700000000000);
             ("1700000000500-0.2"%string, 1700000000500)] in
  let w := init_world (window_store zs 1700000001500) 1700000001000 in
  let options := {| RateLimit.limit := 2; RateLimit.window := 1;
                    RateLimit.key := "api" |} in
  let key := "ratelimit:api:x"%string in
  let now := 1700000001000 in
  let kept := Redis.zkeep 0 (now - 1 * 1000) (zset_at now (store (w_env w)) key) in
  (forall p, In p (zset_at now (store (w_env w)) key) ->
     0 <= p.2 <= now - 1 * 1000 -> ~ In p kept) /\
  (forall p, In p (zset_at now (store (w_env w)) key) ->
     now - 1 * 1000 < p.2 -> In p kept) /\
  (forall p, In p kept <->
     In p (zset_at now (store (w_env w)) key) /\ (p.2 < 0 \/ now - 1 * 1000 < p.2)) /\
  exists res w' evs,
    RateLimit.checkRateLimit "0.7" "x" options w = (Return res, w') /\
    appended w w'
      (EvStore (EVAL_rateLimit key now (now - 1 * 1000) 2 1)
         (RIntegers [if RateLimit.allowed res then 1 else 0;
                     Z.of_nat (length kept)]) :: evs) /\
    zset_at now (store (w_env w')) key
      = (if RateLimit.allowed res
         then Redis.zinsert (dec now +:+ "-" +:+ "0.7") now kept
         else kept).
Proof.
  intros zs w options key now kept.
  apply (checkRateLimit_prunes "0.7" "x" options w).
  - done.
  - done.
  - vm_compute. discriminate.
  - vm_compute. discriminate.
  - reflexivity.
  - reflexivity.
Defined.

(** C4, counterexample.  Limit 2, window 1 s, at 1700000001000; the
    window holds an entry stamped 1700000000000, which is
    [now - window*1000] exactly and so inside the closed interval
    [now - window*1000, now], and one stamped 1700000000500.  The first is
    removed and not counted: the transaction reports one entry and admits
    the call, where two counted entries would have rejected it. *)
Lemma checkRateLimit_prunes_counterexample :
  let old := ("1700000000000-0.1"%string, 1700000000000) in
  let zs := [old; ("1700000000500-0.2"%string, 1700000000500)] in
  let w := init_world (window_store zs 1700000001500) 1700000001000 in
  let options := {| RateLimit.limit := 2; RateLimit.window := 1;
                    RateLimit.key := "api" |} in
  let now := clock (w_env w) in
  let r := RateLimit.checkRateLimit "0.7" "x" options w in
  In old (zset_at now (store (w_env w)) "ratelimit:api:x") /\
  now - RateLimit.window options * 1000 <= old.2 <= now /\
  r.1 = Return {| RateLimit.allowed := true; RateLimit.remaining := 0;
                  RateLimit.resetAt := 1700000002000;
                  RateLimit.retryAfter := None |} /\
  trace r.2 =
    [EvStore (EVAL_rateLimit "ratelimit:api:x" 1700000001000 1700000000000 2 1)
       (RIntegers [1; 1])] /\
  zset_at now (store (w_env r.2)) "ratelimit:api:x"
    = [("1700000000500-0.2"%string, 1700000000500);
       ("1700000001000-0.7"%string, 1700000001000)].
Proof.
  vm_compute. split; [by left|]. split; [split; discriminate|]. done.
Qed.

(** C9.  With the client initialised, [resetRateLimit] deletes the
    window key whatever it holds and touches nothing else; the next
    valid [checkRateLimit] for the same identifier and key, at whatever
    instant it comes, is admitted with [remaining = limit - 1]. *)
Theorem reset_then_check luaRandom identifier key limit window w :
  let k := "ratelimit:" +:+ key +:+ ":" +:+ identifier in
  let options := {| RateLimit.limit := limit; RateLimit.window := window;
                    RateLimit.key := key |} in
  identifier <> ""%string ->
  key <> ""%string ->
  1 <= limit ->
  1 <= window ->
  redisClient (w_env w) = true ->
  exists w1,
    RateLimit.resetRateLimit identifier key w = (Return tt, w1) /\
    store (w_env w1) = delete k (store (w_env w)) /\
    forall t, exists w2,
      RateLimit.checkRateLimit luaRandom identifier options (set_clock t w1) =
        (Return {| RateLimit.allowed := true; RateLimit.remaining := limit - 1;
                   RateLimit.resetAt := t + window * 1000;
                   RateLimit.retryAfter := None |}, w2).
Proof.
  cbv zeta. intros Hid Hkey Hlim Hwin Hready.
  set (k := "ratelimit:" +:+ key +:+ ":" +:+ identifier).
  assert (exists w1, RateLimit.resetRateLimit identifier key w = (Return tt, w1) /\
                     store (w_env w1) = delete k (store (w_env w)) /\
                     redisClient (w_env w1) = true) as (w1 & Hreset & Hst & Hr1).
  { unfold RateLimit.resetRateLimit, mbind, M_bind.
    rewrite getCacheClient_ready by done. unfold send, Redis.del. fold k.
    destruct (Redis.live _ _ k); eexists; (split; [reflexivity|]); done. }
  exists w1. split; [done|]. split; [done|]. intros t.
  set (options := {| RateLimit.limit := limit; RateLimit.window := window;
                     RateLimit.key := key |}).
  assert (Redis.live t (store (w_env (set_clock t w1))) k = None) as Hfree.
  { cbn. rewrite Hst. apply live_delete_eq. }
  assert (holds_string (clock (w_env (set_clock t w1)))
            (store (w_env (set_clock t w1))) k = false) as Hty.
  { unfold holds_string. cbn [set_clock clock w_env] in *. by rewrite Hfree. }
  assert (zset_at (clock (w_env (set_clock t w1)))
            (store (w_env (set_clock t w1))) k = []) as Hz.
  { unfold zset_at. cbn [set_clock clock w_env] in *. by rewrite Hfree. }
  destruct (checkRateLimit_admits luaRandom identifier options (set_clock t w1))
    as (w2 & Hrun & _); try done.
  { cbn [RateLimit.key RateLimit.window RateLimit.limit options].
    fold k. rewrite Hz. cbn. lia. }
  exists w2. rewrite Hrun.
  cbn [RateLimit.key RateLimit.window RateLimit.limit options].
  fold k. rewrite Hz. cbn [Redis.zkeep List.filter length].
  change (Z.of_nat 0) with 0. do 3 f_equal. lia.
Qed.

(** A full window of limit 2 is reset; the next call is admitted with
    one request remaining. *)
Lemma reset_then_check_witness :
  let zs := [("1700000000000-0.1"%string, 1700000000000);
             ("1700000000100-0.2"%string, 1700000000100)] in
  let w := init_world (window_store zs 1700000001100) 1700000000200 in
  let options := {| RateLimit.limit := 2; RateLimit.window := 1;
                    RateLimit.key := "api" |} in
  exists w1,
    RateLimit.resetRateLimit "x" "api" w = (Return tt, w1) /\
    store (w_env w1) = delete "ratelimit:api:x"%string (store (w_env w)) /\
    forall t, exists w2,
      RateLimit.checkRateLimit "0.3" "x" options (set_clock t w1) =
        (Return {| RateLimit.allowed := true; RateLimit.remaining := 2 - 1;
                   RateLimit.resetAt := t + 1 * 1000;
                   RateLimit.retryAfter := None |}, w2).
Proof.
  intros zs w options.
  apply (reset_then_check "0.3" "x" "api" 2 1 w).
  - done.
  - done.
  - vm_compute. discriminate.
  - vm_compute. discriminate.
  - reflexivity.
Defined.

(** ** Leases under interleaving *)

Section Frames.

Import Redis.

Lemma frames_ret {A} key (a : A) : frames key (ret a).
Proof. by intros d k _. Qed.

Lemma frames_bind {A B} key (c : script A) (f : A -> script B) :
  frames key c -> (forall a, frames key (f a)) -> frames key (bind c f).
Proof.
  intros Hc Hf d k Hk. unfold bind. specialize (Hc d k Hk).
  destruct (c d) as [[err|a] d']; [done|].
  cbn in Hc. rewrite <- Hc. by apply Hf.
Qed.

Lemma frames_set_px_nx t key v ttl : frames key (set_px_nx t key v ttl).
Proof.
  intros d k Hk. unfold set_px_nx.
  destruct (ttl <=? 0); [done|]. destruct (live t d key); [done|].
  cbn. by rewrite lookup_insert_ne.
Qed.

Lemma frames_get t key : frames key (get t key).
Proof.
  intros d k Hk. unfold get. by destruct (live t d key) as [[[s|zs] ex]|].
Qed.

Lemma frames_del t key : frames key (del t key).
Proof.
  intros d k Hk. unfold del.
  destruct (live t d key); cbn; by rewrite lookup_delete_ne.
Qed.

Lemma frames_pexpire t key ttl : frames key (pexpire t key ttl).
Proof.
  intros d k Hk. unfold pexpire. destruct (live t d key); [|done].
  destruct (ttl <=? 0); cbn; [by rewrite lookup_delete_ne|by rewrite lookup_insert_ne].
Qed.

Lemma frames_zremrangebyscore t key lo hi : frames key (zremrangebyscore t key lo hi).
Proof.
  intros d k Hk. unfold zremrangebyscore.
  destruct (live t d key) as [[[s|zs] ex]|]; [done| |done].
  destruct (zkeep lo hi zs); cbn;
    [by rewrite lookup_delete_ne|by rewrite lookup_insert_ne].
Qed.

Lemma frames_zcard t key : frames key (zcard t key).
Proof.
  intros d k Hk. unfold zcard. by destruct (live t d key) as [[[s|zs] ex]|].
Qed.

Lemma frames_zadd t key s m : frames key (zadd t key s m).
Proof.
  intros d k Hk. unfold zadd.
  destruct (live t d key) as [[[s'|zs] ex]|]; cbn; [done| |];
    by rewrite lookup_insert_ne.
Qed.

Lemma frames_zrange_first t key : frames key (zrange_first t key).
Proof.
  intros d k Hk. unfold zrange_first.
  by destruct (live t d key) as [[[s|zs] ex]|].
Qed.

Lemma frames_release_script t key tok : frames key (Lock.release_script t key tok).
Proof.
  apply frames_bind; [apply frames_get|]. intros v.
  destruct (decide (v = Some tok)); [apply frames_del|apply frames_ret].
Qed.

Lemma frames_extend_script t key tok ttl : frames key (Lock.extend_script t key tok ttl).
Proof.
  apply frames_bind; [apply frames_get|]. intros v.
  destruct (decide (v = Some tok)); [apply frames_pexpire|apply frames_ret].
Qed.

Lemma frames_rateLimit_script r t key now ws limit window :
  frames key (RateLimit.rateLimit_script r t key now ws limit window).
Proof.
  apply frames_bind; [apply frames_zremrangebyscore|]. intros _.
  apply frames_bind; [apply frames_zcard|]. intros count.
  destruct (count <? limit); [|apply frames_ret].
  apply frames_bind; [apply frames_zadd|]. intros _.
  apply frames_bind; [apply frames_pexpire|]. intros _. apply frames_ret.
Qed.

(** The rate-limit script fails on a string before changing anything. *)
Lemma rateLimit_script_on_string r t key now ws limit window (d : db) s ex :
  live t d key = Some (Entry (VString s) ex) ->
  (RateLimit.rateLimit_script r t key now ws limit window d).2 = d.
Proof.
  intros Hl. unfold RateLimit.rateLimit_script, bind, zremrangebyscore.
  by rewrite Hl.
Qed.

End Frames.

Lemma live_frame t (d d' : Redis.db) k :
  d' !! k = d !! k -> Redis.live t d' k = Redis.live t d k.
Proof. unfold Redis.live. by intros ->. Qed.

Section Lease.

Variables (k tok : string) (expiry : Z).

(** One request of another party, or the passing of time short of the
    expiry, leaves the lease as it is. *)
Lemma step_keeps_lease s a :
  lease k tok expiry s -> ends_lease k tok a = false -> (step s a).2 <= expiry -> lease k tok expiry (step s a).
Proof.
  destruct s as [d t]. unfold lease. cbn [fst snd]. intros Hl Ha Ht.
  destruct a as [ms|r c]; cbn [step fst snd] in *.
  { pose proof (live_lookup _ _ _ _ Hl) as Hk. unfold Redis.live. rewrite Hk.
    unfold Redis.expired. cbn.
    destruct (expiry <? t + Z.max 0 ms) eqn:E; [|done].
    apply Z.ltb_lt in E. lia. }
  destruct c as [k' v px|k' tok'|k' tok' ttl|k' now ws limit window|k'|k'];
    cbn [effect ends_lease] in *.
  - destruct (decide (k' = k)) as [->|Hne].
    + unfold Redis.set_px_nx. destruct (px <=? 0); [done|]. by rewrite Hl.
    + rewrite (live_frame t d _ k); [done|]. apply frames_set_px_nx. congruence.
  - destruct (decide (k' = k)) as [->|Hne].
    + rewrite String.eqb_refl in Ha. cbn in Ha. apply String.eqb_neq in Ha.
      unfold Lock.release_script, Redis.bind, Redis.get. rewrite Hl.
      destruct (decide (Some tok = Some tok')) as [[= ->]|_]; [done|]. done.
    + rewrite (live_frame t d _ k); [done|]. apply frames_release_script. congruence.
  - destruct (decide (k' = k)) as [->|Hne].
    + rewrite String.eqb_refl in Ha. cbn in Ha. apply String.eqb_neq in Ha.
      unfold Lock.extend_script, Redis.bind, Redis.get. rewrite Hl.
      destruct (decide (Some tok = Some tok')) as [[= ->]|_]; [done|]. done.
    + rewrite (live_frame t d _ k); [done|]. apply frames_extend_script. congruence.
  - destruct (decide (k' = k)) as [->|Hne].
    + by rewrite (rateLimit_script_on_string _ _ _ _ _ _ _ _ _ _ Hl).
    + rewrite (live_frame t d _ k); [done|]. apply frames_rateLimit_script. congruence.
  - destruct (decide (k' = k)) as [->|Hne].
    + unfold Redis.zrange_first. by rewrite Hl.
    + rewrite (live_frame t d _ k); [done|]. apply frames_zrange_first. congruence.
  - apply String.eqb_neq in Ha.
    rewrite (live_frame t d _ k); [done|]. apply frames_del. congruence.
Qed.

Lemma step_clock_mono s a : s.2 <= (step s a).2.
Proof. destruct a; cbn; lia. Qed.

Lemma history_clock_mono acts s : s.2 <= (history acts s).2.
Proof.
  revert s. induction acts as [|a acts IH]; intros s; [done|].
  cbn. etrans; [apply (step_clock_mono s a)|apply IH].
Qed.

(** Mutual exclusion over a lease.  From an instant at which [tok]
    holds the key until [expiry], and through any interleaving of
    requests of any clients (requests to acquire the same key
    included) in which nobody releases or extends with [tok] and nobody
    deletes the key, [tok] still holds the key as long as the clock has
    not passed [expiry]; a request to acquire the key is then
    refused. *)
Lemma lease_exclusive acts s :
  lease k tok expiry s ->
  forallb (fun a => negb (ends_lease k tok a)) acts = true ->
  (history acts s).2 <= expiry ->
  lease k tok expiry (history acts s) /\
  forall v px, 0 < px ->
    Redis.set_px_nx (history acts s).2 k v px (history acts s).1
      = (inr false, (history acts s).1).
Proof.
  intros Hs Hacts Ht.
  assert (lease k tok expiry (history acts s)) as Hfinal.
  { revert s Hs Hacts Ht. induction acts as [|a acts IH]; intros s Hs Hacts Ht; [done|].
    cbn in Hacts. apply andb_true_iff in Hacts as [Ha Hacts].
    apply negb_true_iff in Ha. cbn [history fold_left] in *.
    apply IH; [|done|done].
    apply step_keeps_lease; [done|done|].
    etrans; [apply (history_clock_mono acts)|exact Ht]. }
  split; [done|]. intros v px Hpx. by eapply set_px_nx_held.
Qed.

End Lease.

(** ** Timestamps stay non-negative *)

Lemma zinsert_In m s zs p : In p (Redis.zinsert m s zs) -> In p zs \/ p = (m, s).
Proof.
  unfold Redis.zinsert. destruct (Redis.has_member m zs).
  - unfold Redis.set_score. rewrite List.in_map_iff. intros (q & <- & Hq).
    destruct (String.eqb q.1 m); [by right|by left].
  - rewrite List.in_app_iff. intros [?|[<-|[]]]; [by left|by right].
Qed.

(** The entries of a window are stamped by [Date.now()]: a valid call
    made at a non-negative clock reading keeps them non-negative. *)
Lemma checkRateLimit_timestamps luaRandom identifier options w res w' :
  let key := "ratelimit:" +:+ RateLimit.key options +:+ ":" +:+ identifier in
  let now := clock (w_env w) in
  identifier <> ""%string ->
  RateLimit.key options <> ""%string ->
  1 <= RateLimit.limit options ->
  1 <= RateLimit.window options ->
  redisClient (w_env w) = true ->
  holds_string now (store (w_env w)) key = false ->
  0 <= now ->
  (forall p, In p (zset_at now (store (w_env w)) key) -> 0 <= p.2) ->
  RateLimit.checkRateLimit luaRandom identifier options w = (Return res, w') ->
  forall p, In p (zset_at now (store (w_env w')) key) -> 0 <= p.2.
Proof.
  cbv zeta. intros Hid Hkey Hlim Hwin Hready Hty Hnow Hnn Hrun p Hp.
  set (kept := Redis.zkeep 0 (clock (w_env w) - RateLimit.window options * 1000)
                 (zset_at (clock (w_env w)) (store (w_env w))
                    ("ratelimit:" +:+ RateLimit.key options +:+ ":" +:+ identifier))).
  assert (forall q, In q kept -> 0 <= q.2) as Hkept.
  { intros q [Hq _]%zkeep_In. by apply Hnn. }
  destruct (Z_lt_le_dec (Z.of_nat (length kept)) (RateLimit.limit options)) as [Hlt|Hge].
  - destruct (checkRateLimit_admits luaRandom identifier options w
                Hid Hkey Hlim Hwin Hready Hty Hlt) as (w'' & Hrun' & _ & Hz & _).
    rewrite Hrun in Hrun'. injection Hrun' as _ <-. rewrite Hz in Hp.
    apply zinsert_In in Hp as [Hp| ->]; [by apply Hkept|done].
  - destruct (checkRateLimit_rejects luaRandom identifier options w
                Hid Hkey Hlim Hwin Hready Hty Hge) as (w'' & Hrun' & _ & Hz & _).
    rewrite Hrun in Hrun'. injection Hrun' as _ <-. rewrite Hz in Hp.
    by apply Hkept.
Qed.

(** ** Scenarios of the specification, run on the model *)

(** Scenario A: limit 2, window 1 s, three calls within 200 ms. *)
Example scenario_A :
  let options := {| RateLimit.limit := 2; RateLimit.window := 1;
                    RateLimit.key := "api" |} in
  let r1 := RateLimit.checkRateLimit "0.1" "x" options (init_world ∅ 1700000000000) in
  let r2 := RateLimit.checkRateLimit "0.2" "x" options (set_clock 1700000000100 r1.2) in
  let r3 := RateLimit.checkRateLimit "0.3" "x" options (set_clock 1700000000200 r2.2) in
  r1.1 = Return {| RateLimit.allowed := true; RateLimit.remaining := 1;
                   RateLimit.resetAt := 1700000001000; RateLimit.retryAfter := None |} /\
  r2.1 = Return {| RateLimit.allowed := true; RateLimit.remaining := 0;
                   RateLimit.resetAt := 1700000001100; RateLimit.retryAfter := None |} /\
  r3.1 = Return {| RateLimit.allowed := false; RateLimit.remaining := 0;
                   RateLimit.resetAt := 1700000001200;
                   RateLimit.retryAfter := Some 800 |}.
Proof. vm_compute. done. Qed.

(** Scenario B: a lock of 1000 ms; a second caller is refused at once and
    served 1100 ms later, with another token. *)
Example scenario_B :
  let options := {| Lock.ttl := Some 1000; Lock.retries := None;
                    Lock.retryDelay := None |} in
  let r1 := Lock.acquireLock "0.4fzyo82mvyr" "res" options (init_world ∅ 1700000000000) in
  let r2 := Lock.acquireLock "0.9xk" "res" options r1.2 in
  let r3 := Lock.acquireLock "0.b7" "res" options (set_clock 1700000001100 r2.2) in
  r1.1 = Return (Some "1700000000000-4fzyo82mvyr"%string) /\
  r2.1 = Return None /\
  r3.1 = Return (Some "1700000001100-b7"%string).
Proof. vm_compute. done. Qed.

(** Scenario C, run: the error of the callback is propagated, the
    callback ran once, and a following [acquireLock] is granted. *)
Example scenario_C :
  let w := init_world ∅ 1700000000000 in
  let fn := fun e : env => (@Throw unit (Error "boom"), e) in
  let r := Lock.withLock "0.4fzyo82mvyr" "res" fn Lock.no_options w in
  r.1 = Throw (Error "boom") /\
  trace r.2 =
    [EvStore (SET_PX_NX "lock:res" "1700000000000-4fzyo82mvyr" 10000) ROk;
     EvCall;
     EvStore (EVAL_release "lock:res" "1700000000000-4fzyo82mvyr") (RInteger 1)] /\
  (Lock.acquireLock "0.9xk" "res" Lock.no_options r.2).1
    = Return (Some "1700000000000-9xk"%string).
Proof. vm_compute. done. Qed.

(** * Further properties *)

(** ** Validation and the client handle *)

(** X1.  [checkRateLimit] validates its arguments in the order
    identifier, key, limit, window; the first check that fails throws
    its own message, and the world is left as it was: nothing is sent,
    and the client handle is not even looked at. *)
Theorem checkRateLimit_validation luaRandom identifier options w :
  (identifier = ""%string ->
   RateLimit.checkRateLimit luaRandom identifier options w
     = (Throw (Error "Identifier must be a non-empty string"), w)) /\
  (identifier <> ""%string -> RateLimit.key options = ""%string ->
   RateLimit.checkRateLimit luaRandom identifier options w
     = (Throw (Error "Options.key must be a non-empty string"), w)) /\
  (identifier <> ""%string -> RateLimit.key options <> ""%string ->
   RateLimit.limit options < 1 ->
   RateLimit.checkRateLimit luaRandom identifier options w
     = (Throw (Error "Options.limit must be a positive number"), w)) /\
  (identifier <> ""%string -> RateLimit.key options <> ""%string ->
   1 <= RateLimit.limit options -> RateLimit.window options < 1 ->
   RateLimit.checkRateLimit luaRandom identifier options w
     = (Throw (Error "Options.window must be a positive number"), w)).
Proof.
  unfold RateLimit.checkRateLimit. repeat split.
  - by intros ->.
  - intros Hid%String.eqb_neq ->. by rewrite Hid.
  - intros Hid%String.eqb_neq Hk%String.eqb_neq Hl%Z.ltb_lt.
    by rewrite Hid, Hk, Hl.
  - intros Hid%String.eqb_neq Hk%String.eqb_neq Hl%Z.ltb_ge Hw%Z.ltb_lt.
    by rewrite Hid, Hk, Hl, Hw.
Qed.

(** An empty identifier wins over an empty key and a zero limit, on a
    world without client. *)
Lemma checkRateLimit_validation_witness :
  let w := World (Env ∅ 1700000000000 false) [] in
  let options := {| RateLimit.limit := 0; RateLimit.window := 0;
                    RateLimit.key := "" |} in
  RateLimit.checkRateLimit "0.1" "" options w
    = (Throw (Error "Identifier must be a non-empty string"), w).
Proof.
  intros w options.
  apply (proj1 (checkRateLimit_validation "0.1" "" options w)). reflexivity.
Defined.

(** X2.  A valid [checkRateLimit] on a key under which a string is
    stored returns no result: the script fails at its first command,
    the store answers with an error reply, and the client throws that
    reply (whatever its text) instead of an [Error] of the module.  The
    script is the only request sent, and the store is unchanged. *)
Theorem checkRateLimit_wrong_type luaRandom identifier options w :
  let key := "ratelimit:" +:+ RateLimit.key options +:+ ":" +:+ identifier in
  let now := clock (w_env w) in
  identifier <> ""%string ->
  RateLimit.key options <> ""%string ->
  1 <= RateLimit.limit options ->
  1 <= RateLimit.window options ->
  redisClient (w_env w) = true ->
  holds_string now (store (w_env w)) key = true ->
  exists err w',
    RateLimit.checkRateLimit luaRandom identifier options w
      = (Throw (ReplyError err), w') /\
    appended w w'
      [EvStore (EVAL_rateLimit key now (now - RateLimit.window options * 1000)
                  (RateLimit.limit options) (RateLimit.window options))
         (RError err)] /\
    w_env w' = w_env w.
Proof.
  cbv zeta. intros Hid Hkey Hlim Hwin Hready Hty.
  unfold RateLimit.checkRateLimit.
  apply String.eqb_neq in Hid, Hkey. rewrite Hid, Hkey.
  destruct (RateLimit.limit options <? 1) eqn:E1; [apply Z.ltb_lt in E1; lia|].
  destruct (RateLimit.window options <? 1) eqn:E2; [apply Z.ltb_lt in E2; lia|].
  unfold mbind at 1, M_bind at 1. rewrite getCacheClient_ready by done.
  unfold mbind, M_bind, Date_now, send.
  unfold holds_string in Hty.
  destruct (Redis.live _ _ _) as [[[s|zs] ex]|] eqn:Hl; try done.
  unfold RateLimit.rateLimit_script, Redis.bind, Redis.zremrangebyscore.
  rewrite Hl. rewrite set_store_id.
  eexists _, _. split; [reflexivity|]. split; done.
Qed.

(** The key of identifier [x] in scope [api] was written as a plain
    string. *)
Lemma checkRateLimit_wrong_type_witness :
  let d : Redis.db :=
    <["ratelimit:api:x"%string := Redis.Entry (Redis.VString "7") None]> ∅ in
  let w := init_world d 1700000000000 in
  let options := {| RateLimit.limit := 2; RateLimit.window := 1;
                    RateLimit.key := "api" |} in
  exists err w',
    RateLimit.checkRateLimit "0.1" "x" options w = (Throw (ReplyError err), w') /\
    appended w w'
      [EvStore (EVAL_rateLimit "ratelimit:api:x" 1700000000000
                  (1700000000000 - 1 * 1000) 2 1)
         (RError err)] /\
    w_env w' = w_env w.
Proof.
  intros d w options.
  apply (checkRateLimit_wrong_type "0.1" "x" options w).
  - done.
  - done.
  - vm_compute. discriminate.
  - vm_compute. discriminate.
  - reflexivity.
  - reflexivity.
Defined.

(** X3.  On a world without client ([initConfig] never called, or
    [disconnect] called), every operation whose arguments pass its own
    validation throws the "not initialized" error of [getCacheClient]
    and leaves the world as it was; [withLock] does not call [fn]. *)
Theorem client_not_initialized {T} random36 luaRandom key token ttl
    (fn : env -> outcome T * env) lockOptions identifier options w :
  redisClient (w_env w) = false ->
  (key <> ""%string ->
   Lock.acquireLock random36 key lockOptions w = (Throw (Error not_initialized), w)) /\
  Lock.releaseLock key token w = (Throw (Error not_initialized), w) /\
  Lock.extendLock key token ttl w = (Throw (Error not_initialized), w) /\
  (key <> ""%string ->
   Lock.withLock random36 key fn lockOptions w = (Throw (Error not_initialized), w)) /\
  RateLimit.resetRateLimit identifier key w = (Throw (Error not_initialized), w) /\
  (identifier <> ""%string -> RateLimit.key options <> ""%string ->
   1 <= RateLimit.limit options -> 1 <= RateLimit.window options ->
   RateLimit.checkRateLimit luaRandom identifier options w
     = (Throw (Error not_initialized), w)).
Proof.
  intros Hno.
  assert (forall k, k <> ""%string ->
          Lock.acquireLock random36 k lockOptions w
            = (Throw (Error not_initialized), w)) as Hacq.
  { intros k Hk%String.eqb_neq. unfold Lock.acquireLock. rewrite Hk.
    unfold mbind, M_bind, getCacheClient. by rewrite Hno. }
  split; [by apply Hacq|].
  split; [unfold Lock.releaseLock, mbind, M_bind, getCacheClient; by rewrite Hno|].
  split; [unfold Lock.extendLock, mbind, M_bind, getCacheClient; by rewrite Hno|].
  split.
  { intros Hk. unfold Lock.withLock, mbind, M_bind. by rewrite Hacq. }
  split.
  { unfold RateLimit.resetRateLimit, mbind, M_bind, getCacheClient. by rewrite Hno. }
  intros Hid%String.eqb_neq Hkey%String.eqb_neq Hl%Z.ltb_ge Hw%Z.ltb_ge.
  unfold RateLimit.checkRateLimit. rewrite Hid, Hkey, Hl, Hw.
  unfold mbind, M_bind, getCacheClient. by rewrite Hno.
Qed.

Lemma client_not_initialized_witness :
  let w := World (Env ∅ 1700000000000 false) [] in
  let fn := fun e : env => (Return 1, e) in
  let options := {| RateLimit.limit := 2; RateLimit.window := 1;
                    RateLimit.key := "api" |} in
  Lock.acquireLock "0.abc" "res" Lock.no_options w
    = (Throw (Error not_initialized), w) /\
  Lock.releaseLock "res" "tok" w = (Throw (Error not_initialized), w) /\
  Lock.extendLock "res" "tok" 5000 w = (Throw (Error not_initialized), w) /\
  Lock.withLock "0.abc" "res" fn Lock.no_options w
    = (Throw (Error not_initialized), w) /\
  RateLimit.resetRateLimit "x" "res" w = (Throw (Error not_initialized), w) /\
  RateLimit.checkRateLimit "0.1" "x" options w
    = (Throw (Error not_initialized), w).
Proof.
  intros w fn options.
  destruct (client_not_initialized "0.abc" "0.1" "res" "tok" 5000 fn
              Lock.no_options "x" options w eq_refl)
    as (H1 & H2 & H3 & H4 & H5 & H6).
  split; [apply H1; discriminate|].
  split; [exact H2|]. split; [exact H3|].
  split; [apply H4; discriminate|].
  split; [exact H5|].
  apply H6.
  - discriminate.
  - vm_compute. discriminate.
  - vm_compute. discriminate.
  - vm_compute. discriminate.
Defined.

(** X4.  A negative [retries] makes the loop of [acquireLock] run zero
    times: a call that is otherwise valid returns null at once, whether
    the key is free or not, and sends nothing to the store; [withLock]
    then fails without calling [fn]. *)
Theorem acquireLock_negative_retries {T} random36 key options
    (fn : env -> outcome T * env) w :
  key <> ""%string ->
  redisClient (w_env w) = true ->
  1 <= or_default (Lock.ttl options) 10000 ->
  or_default (Lock.retries options) 0 < 0 ->
  Lock.acquireLock random36 key options w = (Return None, w) /\
  Lock.withLock random36 key fn options w
    = (Throw (Error ("Failed to acquire lock: " +:+ key)), w).
Proof.
  intros Hkey Hready Httl Hr.
  assert (Lock.acquireLock random36 key options w = (Return None, w)) as Hacq.
  { rewrite acquireLock_valid by done.
    by replace (Z.to_nat (or_default (Lock.retries options) 0 + 1)) with 0%nat by lia. }
  split; [done|]. unfold Lock.withLock, mbind, M_bind. by rewrite Hacq.
Qed.

(** [retries: -1] on a free key. *)
Lemma acquireLock_negative_retries_witness :
  let w := init_world ∅ 1700000000000 in
  let options := {| Lock.ttl := None; Lock.retries := Some (-1);
                    Lock.retryDelay := None |} in
  let fn := fun e : env => (Return 1, e) in
  Lock.acquireLock "0.abc" "res" options w = (Return None, w) /\
  Lock.withLock "0.abc" "res" fn options w
    = (Throw (Error "Failed to acquire lock: res"), w).
Proof.
  intros w options fn.
  apply (acquireLock_negative_retries "0.abc" "res" options fn w).
  - done.
  - reflexivity.
  - vm_compute. discriminate.
  - reflexivity.
Defined.

(** ** The life of a lease *)

(** A valid call on a free key is granted at its first request. *)
Lemma acquireLock_free random36 key options w :
  let lockKey := "lock:" +:+ key in
  let ttl := or_default (Lock.ttl options) 10000 in
  let tok := dec (clock (w_env w)) +:+ "-" +:+ substring_from 2 random36 in
  key <> ""%string ->
  redisClient (w_env w) = true ->
  1 <= ttl ->
  0 <= or_default (Lock.retries options) 0 ->
  Redis.live (clock (w_env w)) (store (w_env w)) lockKey = None ->
  Lock.acquireLock random36 key options w
    = (Return (Some tok),
       log (EvStore (SET_PX_NX lockKey tok ttl) ROk)
         (set_store (<[lockKey := Redis.Entry (Redis.VString tok)
                                    (Some (clock (w_env w) + ttl))]> (store (w_env w)))
            w)).
Proof.
  cbv zeta. intros Hkey Hready Httl Hr Hfree.
  rewrite acquireLock_valid by done.
  destruct (Z.to_nat (or_default (Lock.retries options) 0 + 1)) as [|n] eqn:En; [lia|].
  rewrite attempts_S. unfold mbind, M_bind.
  rewrite send_set_px_nx by lia. by rewrite Hfree.
Qed.

(** What a grant leaves behind: the call was valid, the client is still
    there, and the store holds the token under the key until [ttl] ms
    after the granting request. *)
Lemma acquireLock_grant_state random36 key options w tok w1 :
  Lock.acquireLock random36 key options w = (Return (Some tok), w1) ->
  key <> ""%string /\
  1 <= or_default (Lock.ttl options) 10000 /\
  redisClient (w_env w1) = true /\
  store (w_env w1) =
    <["lock:" +:+ key :=
        Redis.Entry (Redis.VString tok)
          (Some (clock (w_env w1) + or_default (Lock.ttl options) 10000))]>
      (store (w_env w)).
Proof.
  intros Hrun.
  destruct (acquireLock_cases random36 key options w)
    as [[msg Hm]|[Hn|(Hk & Hready & Ht & Hr)]]; [congruence|congruence|].
  destruct (acquireLock_run random36 key options w Hk Hready Ht Hr)
    as (j & ok & w'' & Hrun' & _ & _ & _ & Hcl & Hst).
  rewrite Hrun in Hrun'. destruct ok; [|done]. injection Hrun' as -> <-.
  destruct Hst as [_ Hst]. done.
Qed.

Lemma live_held t (d : Redis.db) k v x :
  Redis.live t (<[k := Redis.Entry v (Some x)]> d) k =
  if x <? t then None else Some (Redis.Entry v (Some x)).
Proof. unfold Redis.live. by rewrite lookup_insert_eq. Qed.

Lemma holder_held t (d : Redis.db) k s x :
  holder t (<[k := Redis.Entry (Redis.VString s) (Some x)]> d) k =
  if x <? t then None else Some s.
Proof. unfold holder. rewrite live_held. by destruct (x <? t). Qed.

Lemma holds_zset_held t (d : Redis.db) k s x :
  holds_zset t (<[k := Redis.Entry (Redis.VString s) (Some x)]> d) k = false.
Proof. unfold holds_zset. rewrite live_held. by destruct (x <? t). Qed.

(** X5.  Two calls on one key, nothing else happening.  After a first
    call was granted a lock of [ttl1] ms, a second valid call made at
    instant [t]: (a) returns null with the store untouched when its
    last attempt comes no later than the expiry of the first lock; (b)
    is granted at its first request, with a token stamped [t], when [t]
    is past that expiry, although the first holder never released. *)
Theorem acquireLock_after_grant random36 key options w tok w1
    random36' options' t :
  let ttl1 := or_default (Lock.ttl options) 10000 in
  let retries' := or_default (Lock.retries options') 0 in
  let delay' := timer_delay (or_default (Lock.retryDelay options') 100) in
  let expiry := clock (w_env w1) + ttl1 in
  Lock.acquireLock random36 key options w = (Return (Some tok), w1) ->
  1 <= or_default (Lock.ttl options') 10000 ->
  0 <= retries' ->
  clock (w_env w1) <= t ->
  (t + retries' * delay' <= expiry ->
   exists w2,
     Lock.acquireLock random36' key options' (set_clock t w1) = (Return None, w2) /\
     store (w_env w2) = store (w_env w1)) /\
  (expiry < t ->
   exists w2,
     Lock.acquireLock random36' key options' (set_clock t w1)
       = (Return (Some (dec t +:+ "-" +:+ substring_from 2 random36')), w2) /\
     appended (set_clock t w1) w2
       [EvStore (SET_PX_NX ("lock:" +:+ key)
                   (dec t +:+ "-" +:+ substring_from 2 random36')
                   (or_default (Lock.ttl options') 10000)) ROk]).
Proof.
  cbv zeta. intros Hrun Httl' Hr' Ht.
  destruct (acquireLock_grant_state _ _ _ _ _ _ Hrun) as (Hkey & Httl & Hready & Hst).
  split.
  - intros Hlast.
    destruct (acquireLock_run random36' key options' (set_clock t w1) Hkey Hready Httl' Hr')
      as (j & ok & w2 & Hrun2 & Hj & _ & Hck & _ & Hres).
    cbn [set_clock w_env clock store] in *.
    destruct ok.
    + exfalso. destruct Hres as [Hfree _]. rewrite Hst, live_held in Hfree.
      destruct (_ <? clock (w_env w2)) eqn:E; [|done].
      apply Z.ltb_lt in E.
      pose proof (timer_delay_pos (or_default (Lock.retryDelay options') 100)). nia.
    + exists w2. split; [done|]. by destruct Hres as (_ & _ & ->).
  - intros Hpast.
    rewrite (acquireLock_free random36' key options' (set_clock t w1)); try done.
    + eexists. split; [reflexivity|]. done.
    + cbn [set_clock w_env clock store]. rewrite Hst, live_held.
      destruct (_ <? t) eqn:E; [done|]. apply Z.ltb_ge in E. lia.
Qed.

(** Scenario B in general form: a lock of 1000 ms taken at
    1700000000000; a caller at 1700000000400 with two retries 100 ms
    apart gets null, a caller at 1700000001100 is served. *)
Lemma acquireLock_after_grant_witness :
  let w := init_world ∅ 1700000000000 in
  let options := {| Lock.ttl := Some 1000; Lock.retries := None;
                    Lock.retryDelay := None |} in
  let options' := {| Lock.ttl := Some 1000; Lock.retries := Some 2;
                     Lock.retryDelay := Some 100 |} in
  let w1 := (Lock.acquireLock "0.4fzyo82mvyr" "res" options w).2 in
  (exists w2,
     Lock.acquireLock "0.9xk" "res" options' (set_clock 1700000000400 w1)
       = (Return None, w2) /\
     store (w_env w2) = store (w_env w1)) /\
  (exists w2,
     Lock.acquireLock "0.9xk" "res" options' (set_clock 1700000001100 w1)
       = (Return (Some (dec 1700000001100 +:+ "-" +:+ substring_from 2 "0.9xk")), w2) /\
     appended (set_clock 1700000001100 w1) w2
       [EvStore (SET_PX_NX "lock:res"
                   (dec 1700000001100 +:+ "-" +:+ substring_from 2 "0.9xk")
                   (or_default (Lock.ttl options') 10000)) ROk]).
Proof.
  intros w options options' w1. split.
  - apply (proj1 (acquireLock_after_grant "0.4fzyo82mvyr" "res" options w
                    "1700000000000-4fzyo82mvyr" w1 "0.9xk" options' 1700000000400
                    eq_refl ltac:(vm_compute; discriminate)
                    ltac:(vm_compute; discriminate)
                    ltac:(vm_compute; discriminate))).
    vm_compute. discriminate.
  - apply (proj2 (acquireLock_after_grant "0.4fzyo82mvyr" "res" options w
                    "1700000000000-4fzyo82mvyr" w1 "0.9xk" options' 1700000001100
                    eq_refl ltac:(vm_compute; discriminate)
                    ltac:(vm_compute; discriminate)
                    ltac:(vm_compute; discriminate))).
    vm_compute. reflexivity.
Defined.

(** X6.  Acquire, then release or extend with the granted token at
    instant [t], nothing else happening.  Up to the expiry of the lease
    both succeed: the release leaves the store as it was before the
    acquire, without the key; the extension keeps the token and moves
    the expiry to [t + ttl'].  Past the expiry both return false and
    change nothing: the holder has lost the lock although nobody took
    it. *)
Theorem release_extend_after_grant random36 key options w tok w1 t ttl' :
  let lockKey := "lock:" +:+ key in
  let expiry := clock (w_env w1) + or_default (Lock.ttl options) 10000 in
  Lock.acquireLock random36 key options w = (Return (Some tok), w1) ->
  clock (w_env w1) <= t ->
  1 <= ttl' ->
  (t <= expiry ->
   (exists w2,
      Lock.releaseLock key tok (set_clock t w1) = (Return true, w2) /\
      store (w_env w2) = delete lockKey (store (w_env w))) /\
   (exists w2,
      Lock.extendLock key tok ttl' (set_clock t w1) = (Return true, w2) /\
      store (w_env w2) =
        <[lockKey := Redis.Entry (Redis.VString tok) (Some (t + ttl'))]>
          (store (w_env w)))) /\
  (expiry < t ->
   (exists w2,
      Lock.releaseLock key tok (set_clock t w1) = (Return false, w2) /\
      store (w_env w2) = store (w_env w1)) /\
   (exists w2,
      Lock.extendLock key tok ttl' (set_clock t w1) = (Return false, w2) /\
      store (w_env w2) = store (w_env w1))).
Proof.
  cbv zeta. intros Hrun Ht Httl'.
  destruct (acquireLock_grant_state _ _ _ _ _ _ Hrun) as (Hkey & Httl & Hready & Hst).
  set (w1t := set_clock t w1).
  assert (redisClient (w_env w1t) = true) as Hready' by done.
  assert (store (w_env w1t) = store (w_env w1)) as Hs1 by done.
  assert (clock (w_env w1t) = t) as Hc1 by done.
  assert (holds_zset (clock (w_env w1t)) (store (w_env w1t)) ("lock:" +:+ key) = false)
    as Hty by (rewrite Hs1, Hst; apply holds_zset_held).
  split.
  - intros Hin.
    assert (holder (clock (w_env w1t)) (store (w_env w1t)) ("lock:" +:+ key) = Some tok)
      as Hh.
    { rewrite Hs1, Hc1, Hst, holder_held.
      destruct (_ <? t) eqn:E; [|done]. apply Z.ltb_lt in E. lia. }
    destruct (holder_Some _ _ _ _ Hh) as [ex Hl]. split.
    + rewrite (releaseLock_match key tok w1t Hready' Hty Hh).
      eexists. split; [reflexivity|]. cbn. rewrite Hst. apply delete_insert_eq.
    + unfold Lock.extendLock, mbind, M_bind.
      rewrite getCacheClient_ready by done.
      unfold send, Lock.extend_script, Redis.bind, Redis.ret.
      rewrite get_string by done. rewrite Hh.
      destruct (decide (Some tok = Some tok)) as [_|?]; [|done].
      unfold Redis.pexpire. rewrite Hl.
      destruct (ttl' <=? 0) eqn:E; [apply Z.leb_le in E; lia|].
      eexists. split; [reflexivity|]. cbn. rewrite Hst. apply insert_insert_eq.
  - intros Hout.
    assert (holder (clock (w_env w1t)) (store (w_env w1t)) ("lock:" +:+ key) <> Some tok)
      as Hh.
    { rewrite Hs1, Hc1, Hst, holder_held.
      destruct (_ <? t) eqn:E; [done|]. apply Z.ltb_ge in E. lia. }
    split.
    + rewrite (releaseLock_mismatch key tok w1t Hready' Hty Hh).
      eexists. split; [reflexivity|]. done.
    + rewrite (extendLock_mismatch key tok w1t Hready' Hty ttl' Hh).
      eexists. split; [reflexivity|]. done.
Qed.

(** A lock of 1000 ms taken at 1700000000000, released or extended
    700 ms later. *)
Lemma release_extend_after_grant_witness :
  let w := init_world ∅ 1700000000000 in
  let options := {| Lock.ttl := Some 1000; Lock.retries := None;
                    Lock.retryDelay := None |} in
  let tok := "1700000000000-4fzyo82mvyr"%string in
  let w1 := (Lock.acquireLock "0.4fzyo82mvyr" "res" options w).2 in
  (exists w2,
     Lock.releaseLock "res" tok (set_clock 1700000000700 w1) = (Return true, w2) /\
     store (w_env w2) = delete "lock:res"%string (store (w_env w))) /\
  (exists w2,
     Lock.extendLock "res" tok 5000 (set_clock 1700000000700 w1) = (Return true, w2) /\
     store (w_env w2) =
       <["lock:res"%string := Redis.Entry (Redis.VString tok)
                                (Some (1700000000700 + 5000))]>
         (store (w_env w))).
Proof.
  intros w options tok w1.
  apply (proj1 (release_extend_after_grant "0.4fzyo82mvyr" "res" options w tok w1
                  1700000000700 5000 eq_refl
                  ltac:(vm_compute; discriminate) ltac:(lia))).
  vm_compute. discriminate.
Defined.

(** X7.  Whenever [releaseLock] returns true, the lock is gone for
    everybody: a second [releaseLock] and an [extendLock] with the same
    token return false and change nothing, and any valid [acquireLock]
    on the key that follows is granted at its first request. *)
Theorem after_release key tok w w1 :
  Lock.releaseLock key tok w = (Return true, w1) ->
  (exists w2,
     Lock.releaseLock key tok w1 = (Return false, w2) /\
     store (w_env w2) = store (w_env w1)) /\
  (forall ttl, exists w2,
     Lock.extendLock key tok ttl w1 = (Return false, w2) /\
     store (w_env w2) = store (w_env w1)) /\
  (forall random36 options t,
     key <> ""%string ->
     1 <= or_default (Lock.ttl options) 10000 ->
     0 <= or_default (Lock.retries options) 0 ->
     exists w2,
       Lock.acquireLock random36 key options (set_clock t w1)
         = (Return (Some (dec t +:+ "-" +:+ substring_from 2 random36)), w2) /\
       appended (set_clock t w1) w2
         [EvStore (SET_PX_NX ("lock:" +:+ key)
                     (dec t +:+ "-" +:+ substring_from 2 random36)
                     (or_default (Lock.ttl options) 10000)) ROk]).
Proof.
  intros Hrel.
  assert (redisClient (w_env w1) = true /\
          store (w_env w1) = delete ("lock:" +:+ key) (store (w_env w)))
    as [Hready Hst].
  { revert Hrel. unfold Lock.releaseLock, mbind, M_bind, getCacheClient.
    destruct (redisClient (w_env w)) eqn:Hr; [|done].
    unfold send, Lock.release_script, Redis.bind, Redis.get, Redis.ret, Redis.del.
    destruct (Redis.live _ _ _) as [[[s|zs] ex]|] eqn:Hl; [| |]; try done.
    destruct (decide (Some s = Some tok)) as [_|_].
    - rewrite Hl. intros [= <-]. done.
    - intros H. cbn in H. discriminate H. }
  assert (forall t, Redis.live t (store (w_env w1)) ("lock:" +:+ key) = None) as Hfree.
  { intros t. rewrite Hst. apply live_delete_eq. }
  assert (holds_zset (clock (w_env w1)) (store (w_env w1)) ("lock:" +:+ key) = false)
    as Hty by (unfold holds_zset; by rewrite Hfree).
  assert (holder (clock (w_env w1)) (store (w_env w1)) ("lock:" +:+ key) <> Some tok)
    as Hh by (unfold holder; by rewrite Hfree).
  split; [|split].
  - rewrite (releaseLock_mismatch key tok w1 Hready Hty Hh).
    eexists. split; [reflexivity|]. done.
  - intros ttl. rewrite (extendLock_mismatch key tok w1 Hready Hty ttl Hh).
    eexists. split; [reflexivity|]. done.
  - intros random36 options t Hkey Httl Hr.
    rewrite (acquireLock_free random36 key options (set_clock t w1)
               Hkey Hready Httl Hr (Hfree t)).
    eexists. split; [reflexivity|]. done.
Qed.

Lemma after_release_witness :
  let tok := "1700000000000-4fzyo82mvyr"%string in
  let w := init_world (held_store tok 1700000010000) 1700000000500 in
  let w1 := (Lock.releaseLock "res" tok w).2 in
  let t := 1700000000600 in
  (exists w2,
     Lock.releaseLock "res" tok w1 = (Return false, w2) /\
     store (w_env w2) = store (w_env w1)) /\
  (exists w2,
     Lock.extendLock "res" tok 5000 w1 = (Return false, w2) /\
     store (w_env w2) = store (w_env w1)) /\
  (exists w2,
     Lock.acquireLock "0.9xk" "res" Lock.no_options (set_clock t w1)
       = (Return (Some (dec t +:+ "-" +:+ substring_from 2 "0.9xk")), w2) /\
     appended (set_clock t w1) w2
       [EvStore (SET_PX_NX "lock:res"
                   (dec t +:+ "-" +:+ substring_from 2 "0.9xk")
                   (or_default (Lock.ttl Lock.no_options) 10000)) ROk]).
Proof.
  intros tok w w1 t.
  destruct (after_release "res" tok w w1 eq_refl) as (H1 & H2 & H3).
  split; [exact H1|]. split; [exact (H2 5000)|].
  apply (H3 "0.9xk"%string Lock.no_options t).
  - discriminate.
  - vm_compute. discriminate.
  - vm_compute. discriminate.
Defined.

(** ** withLock at its edges *)

(** X8.  [acquireLock] rejects an empty key with its own message before
    looking at the client, and a negative [ttl] with "Lock TTL must be
    positive" once the client is there; in both cases the world is left
    as it was, and [withLock] passes the error on without calling
    [fn]. *)
Theorem lock_validation {T} random36 key options (fn : env -> outcome T * env) w :
  (key = ""%string ->
   Lock.acquireLock random36 key options w
     = (Throw (Error "Lock key must be a non-empty string"), w) /\
   Lock.withLock random36 key fn options w
     = (Throw (Error "Lock key must be a non-empty string"), w)) /\
  (key <> ""%string -> redisClient (w_env w) = true ->
   or_default (Lock.ttl options) 10000 < 1 ->
   Lock.acquireLock random36 key options w
     = (Throw (Error "Lock TTL must be positive"), w) /\
   Lock.withLock random36 key fn options w
     = (Throw (Error "Lock TTL must be positive"), w)).
Proof.
  split.
  - intros ->. split; [done|]. by unfold Lock.withLock, mbind, M_bind.
  - intros Hkey%String.eqb_neq Hready Httl%Z.ltb_lt.
    assert (Lock.acquireLock random36 key options w
            = (Throw (Error "Lock TTL must be positive"), w)) as Hacq.
    { unfold Lock.acquireLock. rewrite Hkey. unfold mbind, M_bind.
      rewrite getCacheClient_ready by done. unfold Date_now. by rewrite Httl. }
    split; [done|]. unfold Lock.withLock, mbind, M_bind. by rewrite Hacq.
Qed.

Lemma lock_validation_witness :
  let w := init_world ∅ 1700000000000 in
  let options := {| Lock.ttl := Some (-5); Lock.retries := None;
                    Lock.retryDelay := None |} in
  let fn := fun e : env => (Return 1, e) in
  Lock.acquireLock "0.abc" "res" options w
    = (Throw (Error "Lock TTL must be positive"), w) /\
  Lock.withLock "0.abc" "res" fn options w
    = (Throw (Error "Lock TTL must be positive"), w).
Proof.
  intros w options fn.
  apply (proj2 (lock_validation "0.abc" "res" options fn w)).
  - done.
  - reflexivity.
  - vm_compute. reflexivity.
Defined.

(** X9.  When [fn] leaves the module without client (it called
    [disconnect]), the release in the [finally] block throws the "not
    initialized" error, which replaces the outcome of [fn], a normal
    result included; nothing is sent and the lock stays in the store as
    [fn] left it. *)
Theorem withLock_client_lost {T} random36 key (fn : env -> outcome T * env)
    options w tok w1 o e2 :
  Lock.acquireLock random36 key options w = (Return (Some tok), w1) ->
  fn (w_env w1) = (o, e2) ->
  redisClient e2 = false ->
  Lock.withLock random36 key fn options w
    = (Throw (Error not_initialized), World e2 (trace w1 ++ [EvCall])).
Proof.
  intros Hacq Hfn Hno.
  destruct (acquireLock_granted _ _ _ _ _ _ Hacq) as (Htok & _).
  unfold Lock.withLock, mbind, M_bind. rewrite Hacq.
  assert (falsy (Some tok) = false) as ->.
  { pose proof (token_nonempty (dec (clock (w_env w))) (substring_from 2 random36)) as Hne.
    rewrite <- Htok in Hne. by destruct tok. }
  unfold try_finally, call. rewrite Hfn.
  unfold Lock.releaseLock, mbind, M_bind, getCacheClient. cbn. by rewrite Hno.
Qed.

Lemma withLock_client_lost_witness :
  let w := init_world ∅ 1700000000000 in
  let fn := fun e : env => (Return 1, Env (store e) (clock e) false) in
  let w1 := (Lock.acquireLock "0.4fzyo82mvyr" "res" Lock.no_options w).2 in
  Lock.withLock "0.4fzyo82mvyr" "res" fn Lock.no_options w
    = (Throw (Error not_initialized),
       World (Env (store (w_env w1)) (clock (w_env w1)) false) (trace w1 ++ [EvCall])).
Proof.
  intros w fn w1.
  apply (withLock_client_lost "0.4fzyo82mvyr" "res" fn Lock.no_options w
           "1700000000000-4fzyo82mvyr" w1 (Return 1)
           (Env (store (w_env w1)) (clock (w_env w1)) false)).
  - reflexivity.
  - reflexivity.
  - reflexivity.
Defined.

(** X10.  When, at the end of [fn], the key no longer holds the token
    of this [withLock] (the lease ran out during [fn], and possibly
    somebody else took the lock), the final release changes nothing in
    the store, so that a new holder keeps its lock; [withLock] still
    returns the outcome of [fn] as if the lock had been held
    throughout. *)
Theorem withLock_lease_lost {T} random36 key (fn : env -> outcome T * env)
    options w tok w1 o e2 :
  let lockKey := "lock:" +:+ key in
  Lock.acquireLock random36 key options w = (Return (Some tok), w1) ->
  fn (w_env w1) = (o, e2) ->
  redisClient e2 = true ->
  holds_zset (clock e2) (store e2) lockKey = false ->
  holder (clock e2) (store e2) lockKey <> Some tok ->
  Lock.withLock random36 key fn options w
    = (o, World e2 (trace w1 ++ [EvCall; EvStore (EVAL_release lockKey tok) (RInteger 0)])).
Proof.
  cbv zeta. intros Hacq Hfn Hready Hty Hh.
  destruct (acquireLock_granted _ _ _ _ _ _ Hacq) as (Htok & _).
  unfold Lock.withLock, mbind, M_bind. rewrite Hacq.
  assert (falsy (Some tok) = false) as ->.
  { pose proof (token_nonempty (dec (clock (w_env w))) (substring_from 2 random36)) as Hne.
    rewrite <- Htok in Hne. by destruct tok. }
  unfold try_finally, call. rewrite Hfn.
  rewrite (releaseLock_mismatch key tok (World e2 (trace w1 ++ [EvCall])) Hready Hty Hh).
  unfold log. cbn. by rewrite <- app_assoc.
Qed.

(** A lock of 1000 ms; the callback takes 1500 ms, during which another
    client took the lock with token "1700000001200-zz". *)
Lemma withLock_lease_lost_witness :
  let w := init_world ∅ 1700000000000 in
  let options := {| Lock.ttl := Some 1000; Lock.retries := None;
                    Lock.retryDelay := None |} in
  let fn := fun e : env =>
    (Return 1, Env (held_store "1700000001200-zz" 1700000002200) (clock e + 1500) true) in
  let w1 := (Lock.acquireLock "0.4fzyo82mvyr" "res" options w).2 in
  Lock.withLock "0.4fzyo82mvyr" "res" fn options w
    = (Return 1,
       World (Env (held_store "1700000001200-zz" 1700000002200) 1700000001500 true)
         (trace w1 ++
          [EvCall;
           EvStore (EVAL_release "lock:res" "1700000000000-4fzyo82mvyr") (RInteger 0)])).
Proof.
  intros w options fn w1.
  apply (withLock_lease_lost "0.4fzyo82mvyr" "res" fn options w
           "1700000000000-4fzyo82mvyr" w1 (Return 1)
           (Env (held_store "1700000001200-zz" 1700000002200) 1700000001500 true)).
  - reflexivity.
  - reflexivity.
  - reflexivity.
  - reflexivity.
  - vm_compute. discriminate.
Defined.

(** X11.  The lock is not re-entrant.  A [withLock] whose callback runs
    [withLock] on the same key, with retries that end before the outer
    lease does, fails inside: the inner call throws "Failed to acquire
    lock", its own callback is never run, the outer [withLock] releases
    its lock (the key is gone from the store) and throws that same
    error. *)
Theorem withLock_not_reentrant {T} random36 random36' key
    (fn : env -> outcome T * env) options options' w tok w1 :
  let lockKey := "lock:" +:+ key in
  let failure := Error ("Failed to acquire lock: " +:+ key) in
  let inner := Lock.withLock random36' key fn options' in
  Lock.acquireLock random36 key options w = (Return (Some tok), w1) ->
  1 <= or_default (Lock.ttl options') 10000 ->
  0 <= or_default (Lock.retries options') 0 ->
  or_default (Lock.retries options') 0
    * timer_delay (or_default (Lock.retryDelay options') 100)
    <= or_default (Lock.ttl options) 10000 ->
  (inner (World (w_env w1) [])).1 = Throw failure /\
  calls (trace (inner (World (w_env w1) [])).2) = 0%nat /\
  exists w3,
    Lock.withLock random36 key (as_callback inner) options w = (Throw failure, w3) /\
    store (w_env w3) = delete lockKey (store (w_env w)).
Proof.
  cbv zeta. intros Hacq Httl' Hr' Hshort.
  destruct (acquireLock_grant_state _ _ _ _ _ _ Hacq) as (Hkey & Httl & Hready & Hst).
  destruct (acquireLock_granted _ _ _ _ _ _ Hacq) as (Htok & _).
  set (w0 := World (w_env w1) []).
  destruct (acquireLock_run random36' key options' w0 Hkey Hready Httl' Hr')
    as (j & ok & w2 & Hrun2 & Hj & Htr2 & Hck & Hcl & Hres).
  pose proof (timer_delay_pos (or_default (Lock.retryDelay options') 100)) as Hd.
  assert (clock (w_env w2) <= clock (w_env w1) + or_default (Lock.ttl options) 10000)
    as Hin.
  { rewrite Hck. change (clock (w_env w0)) with (clock (w_env w1)). nia. }
  destruct ok.
  { exfalso. destruct Hres as [Hfree _].
    change (store (w_env w0)) with (store (w_env w1)) in Hfree.
    rewrite Hst, live_held in Hfree.
    destruct (_ <? clock (w_env w2)) eqn:E; [|done]. apply Z.ltb_lt in E. lia. }
  destruct Hres as (_ & _ & Hst2).
  change (store (w_env w0)) with (store (w_env w1)) in Hst2.
  assert (Lock.withLock random36' key fn options' w0
          = (Throw (Error ("Failed to acquire lock: " +:+ key)), w2)) as Hinner.
  { unfold Lock.withLock, mbind, M_bind. by rewrite Hrun2. }
  split; [by rewrite Hinner|]. split.
  { rewrite Hinner. cbn [snd]. unfold appended in Htr2. rewrite Htr2.
    cbn [trace w0 app]. by rewrite calls_app, calls_failed_rounds. }
  unfold Lock.withLock at 1, mbind, M_bind. rewrite Hacq.
  assert (falsy (Some tok) = false) as ->.
  { pose proof (token_nonempty (dec (clock (w_env w))) (substring_from 2 random36)) as Hne.
    rewrite <- Htok in Hne. by destruct tok. }
  unfold try_finally, call, as_callback. fold w0. rewrite Hinner. cbn [fst snd].
  set (w2' := World (w_env w2) (trace w1 ++ [EvCall])).
  assert (holds_zset (clock (w_env w2')) (store (w_env w2')) ("lock:" +:+ key) = false)
    as Hty.
  { cbn [w2' w_env]. rewrite Hst2, Hst. apply holds_zset_held. }
  assert (holder (clock (w_env w2')) (store (w_env w2')) ("lock:" +:+ key) = Some tok)
    as Hh.
  { cbn [w2' w_env]. rewrite Hst2, Hst, holder_held.
    destruct (_ <? clock (w_env w2)) eqn:E; [|done]. apply Z.ltb_lt in E. lia. }
  rewrite (releaseLock_match key tok w2' Hcl Hty Hh).
  eexists. split; [reflexivity|]. cbn. rewrite Hst2, Hst. apply delete_insert_eq.
Qed.

(** A lock of the default 10000 ms, and inside it a second [withLock]
    on the same key with three retries 100 ms apart. *)
Lemma withLock_not_reentrant_witness :
  let w := init_world ∅ 1700000000000 in
  let options' := {| Lock.ttl := None; Lock.retries := Some 3;
                     Lock.retryDelay := Some 100 |} in
  let fn := fun e : env => (Return 1, e) in
  let w1 := (Lock.acquireLock "0.4fzyo82mvyr" "res" Lock.no_options w).2 in
  let failure := Error "Failed to acquire lock: res" in
  let inner := Lock.withLock "0.9xk" "res" fn options' in
  (inner (World (w_env w1) [])).1 = Throw failure /\
  calls (trace (inner (World (w_env w1) [])).2) = 0%nat /\
  exists w3,
    Lock.withLock "0.4fzyo82mvyr" "res" (as_callback inner) Lock.no_options w
      = (Throw failure, w3) /\
    store (w_env w3) = delete "lock:res"%string (store (w_env w)).
Proof.
  intros w options' fn w1 failure inner.
  apply (withLock_not_reentrant "0.4fzyo82mvyr" "0.9xk" "res" fn Lock.no_options
           options' w "1700000000000-4fzyo82mvyr" w1).
  - reflexivity.
  - vm_compute. discriminate.
  - vm_compute. discriminate.
  - vm_compute. discriminate.
Defined.

(** ** The window in the store *)

Section ScriptStore.

Import Redis.

Variables (luaRandom : string) (t : Z) (key : string).
Variables (now windowStart limit window : Z).
Hypothesis window_ok : 1 <= window.

Let member := dec now +:+ "-" +:+ luaRandom.

(** On an absent (or expired) key the transaction admits, when the
    limit allows one request at all, and creates the window. *)
Lemma rateLimit_script_absent (d : db) :
  live t d key = None ->
  RateLimit.rateLimit_script luaRandom t key now windowStart limit window d =
  if 0 <? limit
  then (inr (1, 0), <[key := Entry (VZSet [(member, now)]) (Some (t + window * 1000))]> d)
  else (inr (0, 0), d).
Proof.
  intros Hl.
  assert ((window * 1000 <=? 0) = false) as Hwb by (apply Z.leb_gt; lia).
  unfold RateLimit.rateLimit_script, bind, zremrangebyscore.
  rewrite Hl. unfold zcard. rewrite Hl.
  destruct (0 <? limit); [|reflexivity].
  unfold zadd. rewrite Hl. unfold expire, pexpire.
  rewrite live_insert_eq by done. rewrite Hwb. cbn [e_value ret].
  by rewrite insert_insert_eq.
Qed.

(** On a window that is there, the transaction keeps the entries
    outside the pruned range, and below the limit adds its own and
    renews the expiry; at the limit it leaves the expiry alone. *)
Lemma rateLimit_script_present (d : db) zs ex :
  live t d key = Some (Entry (VZSet zs) ex) ->
  let kept := zkeep 0 windowStart zs in
  let count := Z.of_nat (length kept) in
  RateLimit.rateLimit_script luaRandom t key now windowStart limit window d =
  if count <? limit
  then (inr (1, count),
        <[key := Entry (VZSet (zinsert member now kept)) (Some (t + window * 1000))]> d)
  else (inr (0, count),
        match kept with
        | [] => delete key d
        | _ :: _ => <[key := Entry (VZSet kept) ex]> d
        end).
Proof.
  intros Hl. cbv zeta.
  assert ((window * 1000 <=? 0) = false) as Hwb by (apply Z.leb_gt; lia).
  pose proof (live_not_expired _ _ _ _ Hl) as Hex.
  unfold RateLimit.rateLimit_script, bind, zremrangebyscore.
  rewrite Hl.
  destruct (zkeep 0 windowStart zs) as [|p kept] eqn:Hk.
  - unfold zcard. rewrite live_delete_eq. cbn [length].
    change (Z.of_nat 0) with 0.
    destruct (0 <? limit); [|reflexivity].
    unfold zadd. rewrite live_delete_eq. unfold expire, pexpire.
    rewrite live_insert_eq by done. rewrite Hwb. cbn [e_value ret].
    by rewrite insert_insert_eq, insert_delete_eq.
  - unfold zcard. rewrite live_insert_eq by done.
    destruct (Z.of_nat (length (p :: kept)) <? limit); [|reflexivity].
    unfold zadd. rewrite live_insert_eq by done. unfold expire, pexpire.
    rewrite live_insert_eq by done. rewrite Hwb. cbn [e_value ret].
    by rewrite !insert_insert_eq.
Qed.

End ScriptStore.

(** A valid call, given what the transaction answers and leaves: the
    result is admitted or not after the flag, and the world afterwards
    has the store of the transaction, the same clock and client. *)
Lemma checkRateLimit_via_script luaRandom identifier options w flag count d' :
  let key := "ratelimit:" +:+ RateLimit.key options +:+ ":" +:+ identifier in
  let now := clock (w_env w) in
  identifier <> ""%string ->
  RateLimit.key options <> ""%string ->
  1 <= RateLimit.limit options ->
  1 <= RateLimit.window options ->
  redisClient (w_env w) = true ->
  holds_string now (store (w_env w)) key = false ->
  RateLimit.rateLimit_script luaRandom now key now
    (now - RateLimit.window options * 1000) (RateLimit.limit options)
    (RateLimit.window options) (store (w_env w)) = (inr (flag, count), d') ->
  holds_string now d' key = false ->
  exists res w',
    RateLimit.checkRateLimit luaRandom identifier options w = (Return res, w') /\
    RateLimit.allowed res = (flag =? 1) /\
    store (w_env w') = d' /\
    clock (w_env w') = now /\
    redisClient (w_env w') = true.
Proof.
  cbv zeta. intros Hid Hkey Hlim Hwin Hready Hty Hscript Hty'.
  rewrite checkRateLimit_valid by done.
  unfold mbind, M_bind, send. rewrite Hscript. cbn [fst snd].
  destruct (flag =? 1) eqn:Hf; cbn [negb].
  - eexists _, _. split; [reflexivity|]. done.
  - cbn [log set_store w_env store clock].
    rewrite zrange_first_spec by done.
    eexists _, _. split; [reflexivity|]. done.
Qed.

(** ** Tokens and tags *)

Lemma string_of_uint_hyphen_free d : hyphen_free (NilEmpty.string_of_uint d) = true.
Proof. induction d; cbn; by rewrite ?IHd. Qed.

(** A non-negative number is rendered with digits only. *)
Lemma dec_hyphen_free n : 0 <= n -> hyphen_free (dec n) = true.
Proof.
  intros Hn. unfold dec. destruct n as [|p|p]; [done| |lia].
  cbn [Z.to_int NilZero.string_of_int].
  pose proof (DecimalPos.Unsigned.to_uint_nonnil p) as Hnn.
  destruct (Pos.to_uint p) eqn:E; try done;
    rewrite <- E; unfold NilZero.string_of_int; rewrite E;
    apply (string_of_uint_hyphen_free (_ _)).
Qed.

Lemma dec_inj a b : dec a = dec b -> a = b.
Proof.
  unfold dec. intros H.
  assert (forall z, Z.to_int z <> Decimal.Pos Decimal.Nil /\
                    Z.to_int z <> Decimal.Neg Decimal.Nil) as Hnn.
  { intros [|p|p]; cbn; split; try done; intros [= E];
      by apply DecimalPos.Unsigned.to_uint_nonnil in E. }
  assert (Some (Z.to_int a) = Some (Z.to_int b)) as [= E].
  { rewrite <- (NilZero.isi (Z.to_int a)), <- (NilZero.isi (Z.to_int b));
      try apply Hnn. by rewrite H. }
  rewrite <- (DecimalZ.of_to a), <- (DecimalZ.of_to b). by rewrite E.
Qed.

(** The first hyphen splits timestamp and random part. *)
Lemma split_at_hyphen a1 a2 b1 b2 :
  hyphen_free a1 = true -> hyphen_free a2 = true ->
  a1 +:+ "-" +:+ b1 = a2 +:+ "-" +:+ b2 -> a1 = a2 /\ b1 = b2.
Proof.
  revert a2. induction a1 as [|c a1 IH]; intros [|c' a2] H1 H2 E;
    simpl in H1, H2, E.
  - injection E as E. by subst.
  - injection E as E1 E2. subst c'. done.
  - injection E as E1 E2. subst c. done.
  - injection E as E1 E2.
    apply andb_true_iff in H1 as [_ H1], H2 as [_ H2].
    destruct (IH a2 H1 H2 E2) as [-> ->]. by subst.
Qed.

Lemma stamped_inj t1 t2 r1 r2 :
  0 <= t1 -> 0 <= t2 ->
  dec t1 +:+ "-" +:+ r1 = dec t2 +:+ "-" +:+ r2 -> t1 = t2 /\ r1 = r2.
Proof.
  intros H1 H2 E.
  apply split_at_hyphen in E as [E ->]; [|by apply dec_hyphen_free..].
  split; [by apply dec_inj|done].
Qed.

(** X12.  Two granted tokens, from any two calls made at non-negative
    clock readings, are equal exactly when the calls read the same
    millisecond and their [Math.random()] renderings agree after the
    first two characters: calls in different milliseconds never share
    a token, calls in the same millisecond are told apart by the random
    part alone. *)
Theorem tokens_equal_iff random36 key options w tok w1
    random36' key' options' w' tok' w1' :
  Lock.acquireLock random36 key options w = (Return (Some tok), w1) ->
  Lock.acquireLock random36' key' options' w' = (Return (Some tok'), w1') ->
  0 <= clock (w_env w) ->
  0 <= clock (w_env w') ->
  tok = tok' <->
  clock (w_env w) = clock (w_env w') /\
  substring_from 2 random36 = substring_from 2 random36'.
Proof.
  intros Ha Ha' Hc Hc'.
  destruct (acquireLock_granted _ _ _ _ _ _ Ha) as (-> & _).
  destruct (acquireLock_granted _ _ _ _ _ _ Ha') as (-> & _).
  split.
  - by apply stamped_inj.
  - by intros [-> ->].
Qed.

Lemma tokens_equal_iff_witness :
  let w := init_world ∅ 1700000000000 in
  let w' := init_world ∅ 1700000000001 in
  let r := Lock.acquireLock "0.4fzyo82mvyr" "res" Lock.no_options w in
  let r' := Lock.acquireLock "0.4fzyo82mvyr" "res" Lock.no_options w' in
  ("1700000000000-4fzyo82mvyr"%string = "1700000000001-4fzyo82mvyr"%string) <->
  clock (w_env w) = clock (w_env w') /\
  substring_from 2 "0.4fzyo82mvyr" = substring_from 2 "0.4fzyo82mvyr".
Proof.
  intros w w' r r'.
  apply (tokens_equal_iff "0.4fzyo82mvyr" "res" Lock.no_options w
           "1700000000000-4fzyo82mvyr" r.2
           "0.4fzyo82mvyr" "res" Lock.no_options w'
           "1700000000001-4fzyo82mvyr" r'.2).
  - reflexivity.
  - reflexivity.
  - vm_compute. discriminate.
  - vm_compute. discriminate.
Defined.

(** ** The sliding window over a sequence of calls *)

Section WindowLists.

Import Redis.






End WindowLists.

Section CheckSequence.

Variables (identifier : string) (options : RateLimit.RateLimitOptions).

Let limit := RateLimit.limit options.
Let window := RateLimit.window options.
Let key := "ratelimit:" +:+ RateLimit.key options +:+ ":" +:+ identifier.

Hypothesis identifier_ok : identifier <> ""%string.
Hypothesis key_ok : RateLimit.key options <> ""%string.
Hypothesis limit_ok : 1 <= limit.
Hypothesis window_ok : 1 <= window.



End CheckSequence.

Section Capped.

Variables (limit window : Z).




Lemma filter_length_le {X} (P Q : X -> bool) l :
  (forall x, P x = true -> Q x = true) ->
  (length (List.filter P l) <= length (List.filter Q l))%nat.
Proof.
  intros HPQ. induction l as [|x l IH]; [done|]. cbn.
  destruct (P x) eqn:EP.
  - rewrite (HPQ x EP). cbn. lia.
  - destruct (Q x); cbn; lia.
Qed.


End Capped.



Section CheckSequenceCap.

Variables (identifier : string) (options : RateLimit.RateLimitOptions).

Let limit := RateLimit.limit options.
Let window := RateLimit.window options.
Let key := "ratelimit:" +:+ RateLimit.key options +:+ ":" +:+ identifier.

Hypothesis identifier_ok : identifier <> ""%string.
Hypothesis key_ok : RateLimit.key options <> ""%string.
Hypothesis limit_ok : 1 <= limit.
Hypothesis window_ok : 1 <= window.


End CheckSequenceCap.



(** The calls of the witness: admitted, admitted, rejected, admitted
    (the first entry is one window old), admitted. *)
Example sliding_window_run :
  let options := {| RateLimit.limit := 2; RateLimit.window := 1;
                    RateLimit.key := "api" |} in
  let cs := [(1700000000000, "0.1"%string); (1700000000100, "0.2"%string);
             (1700000000200, "0.3"%string); (1700000001000, "0.4"%string);
             (1700000001200, "0.5"%string)] in
  admitted_times cs (checks "x" options cs (init_world ∅ 1700000000000)).1
    = [1700000000000; 1700000000100; 1700000001000; 1700000001200].
Proof. vm_compute. reflexivity. Qed.

(** X14.  The cap rests on the member tags being distinct.  With a
    limit of at least two, calls made in one and the same millisecond
    for which the script's [math.random()] gives the same value are all
    admitted, however many they are: each one overwrites the entry of
    the one before, and the window never counts more than one. *)
Theorem same_tag_never_limited identifier options t luaRandom n w :
  let key := "ratelimit:" +:+ RateLimit.key options +:+ ":" +:+ identifier in
  identifier <> ""%string ->
  RateLimit.key options <> ""%string ->
  2 <= RateLimit.limit options ->
  1 <= RateLimit.window options ->
  redisClient (w_env w) = true ->
  Redis.live t (store (w_env w)) key = None ->
  admitted_times (replicate n (t, luaRandom))
    (checks identifier options (replicate n (t, luaRandom)) w).1
    = replicate n t.
Proof.
  cbv zeta. intros Hid Hkey Hlim Hwin Hready Hnone.
  set (key := "ratelimit:" +:+ RateLimit.key options +:+ ":" +:+ identifier) in *.
  set (m := dec t +:+ "-" +:+ luaRandom).
  set (one := Redis.Entry (Redis.VZSet [(m, t)])
                (Some (t + RateLimit.window options * 1000))).
  destruct n as [|n]; [done|].
  (* the first call creates the window with one entry *)
  assert (exists res w1,
            RateLimit.checkRateLimit luaRandom identifier options (set_clock t w)
              = (Return res, w1) /\ RateLimit.allowed res = true /\
            redisClient (w_env w1) = true /\
            Redis.live t (store (w_env w1)) key = Some one) as (res & w1 & Hrun & Hal & Hr1 & Hl1).
  { pose proof (rateLimit_script_absent luaRandom t key t
                  (t - RateLimit.window options * 1000) (RateLimit.limit options)
                  (RateLimit.window options) Hwin (store (w_env w)) Hnone) as Hscript.
    assert ((0 <? RateLimit.limit options) = true) as Hl0 by (apply Z.ltb_lt; lia).
    rewrite Hl0 in Hscript.
    assert (holds_string t (store (w_env w)) key = false) as Hty
      by (unfold holds_string; by rewrite Hnone).
    assert (holds_string t (<[key := one]> (store (w_env w))) key = false) as Hty'.
    { unfold holds_string. rewrite live_insert_eq by (apply expired_fresh; lia). done. }
    destruct (checkRateLimit_via_script luaRandom identifier options (set_clock t w) 1 0 _
                Hid Hkey ltac:(lia) Hwin Hready Hty Hscript Hty')
      as (res & w1 & Hrun & Hal & Hst & _ & Hcl).
    exists res, w1. split; [done|]. split; [done|]. split; [done|].
    rewrite Hst. apply live_insert_eq. apply expired_fresh. lia. }
  cbn [replicate checks admitted_times fst snd]. rewrite Hrun.
  cbn [fst snd admitted]. rewrite Hal. f_equal.
  (* every further call finds that entry, is admitted, and rewrites it *)
  clear Hrun Hal res Hnone Hready. revert w1 Hr1 Hl1.
  induction n as [|n IH]; intros w1 Hr1 Hl1; [done|].
  pose proof (rateLimit_script_present luaRandom t key t
                (t - RateLimit.window options * 1000) (RateLimit.limit options)
                (RateLimit.window options) Hwin (store (w_env w1)) _ _ Hl1) as Hscript.
  cbv zeta in Hscript.
  assert (Redis.zkeep 0 (t - RateLimit.window options * 1000) [(m, t)] = [(m, t)] \/
          Redis.zkeep 0 (t - RateLimit.window options * 1000) [(m, t)] = []) as Hk.
  { unfold Redis.zkeep. cbn. destruct (negb _); [by left|by right]. }
  assert (Redis.zinsert m t (Redis.zkeep 0 (t - RateLimit.window options * 1000) [(m, t)])
          = [(m, t)]) as Hins.
  { destruct Hk as [-> | ->]; [|done].
    unfold Redis.zinsert, Redis.has_member, Redis.set_score. cbn.
    by rewrite String.eqb_refl. }
  assert ((Z.of_nat (length (Redis.zkeep 0 (t - RateLimit.window options * 1000) [(m, t)]))
           <? RateLimit.limit options) = true) as Hc.
  { apply Z.ltb_lt. destruct Hk as [-> | ->]; cbn; lia. }
  rewrite Hc in Hscript. fold m in Hscript. rewrite Hins in Hscript.
  assert (holds_string t (store (w_env w1)) key = false) as Hty
    by (unfold holds_string; by rewrite Hl1).
  assert (holds_string t (<[key := one]> (store (w_env w1))) key = false) as Hty'.
  { unfold holds_string. rewrite live_insert_eq by (apply expired_fresh; lia). done. }
  destruct (checkRateLimit_via_script luaRandom identifier options (set_clock t w1) 1 _ _
              Hid Hkey ltac:(lia) Hwin Hr1 Hty Hscript Hty')
    as (res & w2 & Hrun & Hal & Hst & _ & Hcl).
  cbn [replicate checks admitted_times fst snd]. rewrite Hrun.
  cbn [fst snd admitted]. rewrite Hal. cbn [Z.eqb Pos.eqb]. f_equal.
  apply IH; [done|]. rewrite Hst. apply live_insert_eq. apply expired_fresh. lia.
Qed.

(** Ten calls in the millisecond 1700000000000 against limit 2. *)
Lemma same_tag_never_limited_witness :
  let options := {| RateLimit.limit := 2; RateLimit.window := 1;
                    RateLimit.key := "api" |} in
  let w := init_world ∅ 1700000000000 in
  admitted_times (replicate 10 (1700000000000, "0.17"%string))
    (checks "x" options (replicate 10 (1700000000000, "0.17"%string)) w).1
    = replicate 10 1700000000000.
Proof.
  intros options w.
  apply (same_tag_never_limited "x" options 1700000000000 "0.17" 10 w).
  - done.
  - done.
  - vm_compute. discriminate.
  - vm_compute. discriminate.
  - reflexivity.
  - reflexivity.
Defined.

(** ** Which keys an operation touches *)

Lemma touches_only_ret {A} key (a : A) : touches_only key (mret a).
Proof. intros w o w' [= _ <-]. done. Qed.

Lemma touches_only_throw {A} key e : touches_only key (@throw A e).
Proof. intros w o w' [= _ <-]. done. Qed.

Lemma touches_only_bind {A B} key (c : M A) (f : A -> M B) :
  touches_only key c -> (forall a, touches_only key (f a)) ->
  touches_only key (c ≫= f).
Proof.
  intros Hc Hf w o w'. unfold mbind, M_bind.
  destruct (c w) as [[a|e] w1] eqn:E; destruct (Hc _ _ _ E) as [Hr Hs].
  - intros H. destruct (Hf a _ _ _ H) as [Hr' Hs']. split; [congruence|].
    intros k Hk. rewrite Hs', Hs; done.
  - intros [= _ <-]. done.
Qed.

Lemma touches_only_getCacheClient key : touches_only key getCacheClient.
Proof.
  intros w o w'. unfold getCacheClient.
  destruct (redisClient (w_env w)) eqn:E; intros [= _ <-]; by rewrite ?E.
Qed.

Lemma touches_only_Date_now key : touches_only key Date_now.
Proof. intros w o w' [= _ <-]. done. Qed.

Lemma touches_only_sleep key ms : touches_only key (sleep ms).
Proof. intros w o w' [= _ <-]. done. Qed.

Lemma touches_only_send {A} key c (run : Z -> Redis.script A) show :
  (forall t, frames key (run t)) -> touches_only key (send c run show).
Proof.
  intros Hfr w o w'. unfold send.
  pose proof (Hfr (clock (w_env w)) (store (w_env w))) as H.
  destruct (run _ _) as [[err|a] d]; intros [= _ <-]; (split; [done|]);
    intros k Hk; by apply H.
Qed.

Lemma touches_only_attempts lockKey token ttl retries retryDelay n : forall i,
  touches_only lockKey (Lock.attempts lockKey token ttl retries retryDelay n i).
Proof.
  induction n as [|n IH]; intros i; [apply touches_only_ret|].
  rewrite attempts_S. apply touches_only_bind.
  { apply touches_only_send. intros t. apply frames_set_px_nx. }
  intros [|]; [apply touches_only_ret|].
  apply touches_only_bind; [|intros _; apply IH].
  destruct (i <? retries); [apply touches_only_sleep|apply touches_only_ret].
Qed.

Lemma touches_only_acquireLock random36 key options :
  touches_only ("lock:" +:+ key) (Lock.acquireLock random36 key options).
Proof.
  unfold Lock.acquireLock. destruct (String.eqb key ""); [apply touches_only_throw|].
  apply touches_only_bind; [apply touches_only_getCacheClient|]. intros _.
  apply touches_only_bind; [apply touches_only_Date_now|]. intros now.
  destruct (_ <? 1); [apply touches_only_throw|apply touches_only_attempts].
Qed.

Lemma touches_only_releaseLock key token :
  touches_only ("lock:" +:+ key) (Lock.releaseLock key token).
Proof.
  unfold Lock.releaseLock.
  apply touches_only_bind; [apply touches_only_getCacheClient|]. intros _.
  apply touches_only_bind; [|intros r; apply touches_only_ret].
  apply touches_only_send. intros t. apply frames_release_script.
Qed.

Lemma touches_only_extendLock key token ttl :
  touches_only ("lock:" +:+ key) (Lock.extendLock key token ttl).
Proof.
  unfold Lock.extendLock.
  apply touches_only_bind; [apply touches_only_getCacheClient|]. intros _.
  apply touches_only_bind; [|intros r; apply touches_only_ret].
  apply touches_only_send. intros t. apply frames_extend_script.
Qed.

Lemma touches_only_checkRateLimit luaRandom identifier options :
  touches_only ("ratelimit:" +:+ RateLimit.key options +:+ ":" +:+ identifier)
    (RateLimit.checkRateLimit luaRandom identifier options).
Proof.
  unfold RateLimit.checkRateLimit.
  destruct (String.eqb identifier ""); [apply touches_only_throw|].
  destruct (String.eqb (RateLimit.key options) ""); [apply touches_only_throw|].
  destruct (_ <? 1); [apply touches_only_throw|].
  destruct (_ <? 1); [apply touches_only_throw|].
  apply touches_only_bind; [apply touches_only_getCacheClient|]. intros _.
  apply touches_only_bind; [apply touches_only_Date_now|]. intros now.
  apply touches_only_bind.
  { apply touches_only_send. intros t. apply frames_rateLimit_script. }
  intros result. destruct (negb _); [|apply touches_only_ret].
  apply touches_only_bind; [|intros r; apply touches_only_ret].
  apply touches_only_send. intros t. apply frames_zrange_first.
Qed.

Lemma touches_only_resetRateLimit identifier key :
  touches_only ("ratelimit:" +:+ key +:+ ":" +:+ identifier)
    (RateLimit.resetRateLimit identifier key).
Proof.
  unfold RateLimit.resetRateLimit.
  apply touches_only_bind; [apply touches_only_getCacheClient|]. intros _.
  apply touches_only_bind; [|intros r; apply touches_only_ret].
  apply touches_only_send. intros t. apply frames_del.
Qed.

Lemma lock_key_inj k k' : "lock:" +:+ k = "lock:" +:+ k' -> k = k'.
Proof. cbn. intros [= E]. exact E. Qed.

Lemma lock_key_not_ratelimit k s : "lock:" +:+ k <> "ratelimit:" +:+ s.
Proof. cbn. by intros [=]. Qed.

(** X15.  Operations on different keys do not interact.  Whatever the
    arguments, the world and the outcome, each operation changes the
    store under its own key at most: [lock:<key>] for [acquireLock],
    [releaseLock] and [extendLock], [ratelimit:<key>:<identifier>] for
    [checkRateLimit] and [resetRateLimit].  Locks of different names
    have different store keys, and no lock shares its store key with a
    rate window. *)
Theorem keys_independent random36 luaRandom key token ttl lockOptions
    identifier options w :
  let d := store (w_env w) in
  let d1 := store (w_env (Lock.acquireLock random36 key lockOptions w).2) in
  let d2 := store (w_env (Lock.releaseLock key token w).2) in
  let d3 := store (w_env (Lock.extendLock key token ttl w).2) in
  let d4 := store (w_env (RateLimit.checkRateLimit luaRandom identifier options w).2) in
  let d5 := store (w_env (RateLimit.resetRateLimit identifier key w).2) in
  (forall k, k <> "lock:" +:+ key ->
     d1 !! k = d !! k /\ d2 !! k = d !! k /\ d3 !! k = d !! k) /\
  (forall k, k <> "ratelimit:" +:+ RateLimit.key options +:+ ":" +:+ identifier ->
     d4 !! k = d !! k) /\
  (forall k, k <> "ratelimit:" +:+ key +:+ ":" +:+ identifier -> d5 !! k = d !! k) /\
  (forall key', key' <> key -> "lock:" +:+ key' <> "lock:" +:+ key) /\
  (forall key' s, "lock:" +:+ key' <> "ratelimit:" +:+ s).
Proof.
  cbv zeta.
  assert (forall {A} k0 (m : M A), touches_only k0 m ->
          forall k, k <> k0 -> store (w_env (m w).2) !! k = store (w_env w) !! k) as H.
  { intros A k0 m Hm k Hk. destruct (m w) as [o w'] eqn:E.
    by apply (Hm _ _ _ E). }
  split; [|split; [|split; [|split]]].
  - intros k Hk. split; [|split].
    + by apply (H _ _ _ (touches_only_acquireLock random36 key lockOptions)).
    + by apply (H _ _ _ (touches_only_releaseLock key token)).
    + by apply (H _ _ _ (touches_only_extendLock key token ttl)).
  - intros k Hk. by apply (H _ _ _ (touches_only_checkRateLimit luaRandom identifier options)).
  - intros k Hk. by apply (H _ _ _ (touches_only_resetRateLimit identifier key)).
  - intros key' Hne E. by apply Hne, lock_key_inj.
  - intros key' s. apply lock_key_not_ratelimit.
Qed.

(** A rate-limit call on a store that holds a lock leaves the lock as
    it is, and two lock names give two store keys. *)
Lemma keys_independent_witness :
  let w := init_world (held_store "1700000000000-4fzyo82mvyr" 1700000001000)
             1700000000200 in
  let options := {| RateLimit.limit := 2; RateLimit.window := 1;
                    RateLimit.key := "api" |} in
  store (w_env (RateLimit.checkRateLimit "0.3" "x" options w).2) !! "lock:res"%string
  = store (w_env w) !! "lock:res"%string /\
  "lock:jobs"%string <> "lock:res"%string.
Proof.
  intros w options.
  pose proof (keys_independent "0.4" "0.3" "res" "t" 1000 Lock.no_options
                "x" options w) as H.
  cbv zeta in H. destruct H as (_ & H2 & _ & H4 & _). split.
  - apply H2. discriminate.
  - apply (H4 "jobs"%string). discriminate.
Defined.

(** ** Scopes that share a window *)

Lemma string_app_assoc a b c : (a +:+ b) +:+ c = a +:+ (b +:+ c).
Proof.
  induction a as [|x a IH]; [reflexivity|].
  change (String x ((a +:+ b) +:+ c) = String x (a +:+ (b +:+ c))). by rewrite IH.
Qed.

Lemma string_app_nonempty a b : a <> ""%string -> a +:+ b <> ""%string.
Proof. by destruct a. Qed.

Lemma string_app_nonempty_r a b : b <> ""%string -> a +:+ b <> ""%string.
Proof. destruct a; [done|]. by intros _. Qed.

(** X16.  The store key of a window is the plain concatenation
    [ratelimit:<key>:<identifier>], so the colon does not separate the
    two parts: the scope [a:b] with identifier [c] and the scope [a]
    with identifier [b:c] are one and the same window.  With the same
    limit and window length, the two calls are the same computation,
    and a reset of one is a reset of the other. *)
Theorem scopes_share_window luaRandom a b c limit window :
  a <> ""%string -> c <> ""%string ->
  RateLimit.checkRateLimit luaRandom c
    {| RateLimit.limit := limit; RateLimit.window := window;
       RateLimit.key := a +:+ ":" +:+ b |}
  = RateLimit.checkRateLimit luaRandom (b +:+ ":" +:+ c)
      {| RateLimit.limit := limit; RateLimit.window := window; RateLimit.key := a |}
  /\
  RateLimit.resetRateLimit c (a +:+ ":" +:+ b)
  = RateLimit.resetRateLimit (b +:+ ":" +:+ c) a.
Proof.
  intros Ha Hc.
  assert ("ratelimit:" +:+ (a +:+ ":" +:+ b) +:+ ":" +:+ c
          = "ratelimit:" +:+ a +:+ ":" +:+ b +:+ ":" +:+ c) as Hk.
  { by rewrite !string_app_assoc. }
  split.
  - unfold RateLimit.checkRateLimit. cbn [RateLimit.key RateLimit.limit RateLimit.window].
    assert (String.eqb c "" = false) as -> by (by apply String.eqb_neq).
    assert (String.eqb a "" = false) as -> by (by apply String.eqb_neq).
    assert (String.eqb (a +:+ ":" +:+ b) "" = false) as ->
      by (by apply String.eqb_neq, string_app_nonempty).
    assert (String.eqb (b +:+ ":" +:+ c) "" = false) as ->
      by (apply String.eqb_neq, string_app_nonempty_r; by destruct c).
    by rewrite Hk.
  - unfold RateLimit.resetRateLimit. by rewrite Hk.
Qed.

(** Scope [api:v1] with identifier [x], scope [api] with identifier
    [v1:x]. *)
Lemma scopes_share_window_witness :
  RateLimit.checkRateLimit "0.1" "x"
    {| RateLimit.limit := 2; RateLimit.window := 1; RateLimit.key := "api:v1" |}
  = RateLimit.checkRateLimit "0.1" "v1:x"
      {| RateLimit.limit := 2; RateLimit.window := 1; RateLimit.key := "api" |}
  /\
  RateLimit.resetRateLimit "x" "api:v1" = RateLimit.resetRateLimit "v1:x" "api".
Proof.
  apply (scopes_share_window "0.1" "api" "v1" "x" 2 1); done.
Defined.

(** ** What retryAfter promises *)

Lemma filter_length_lt {X} (f : X -> bool) l p :
  In p l -> f p = false -> (length (List.filter f l) < length l)%nat.
Proof.
  induction l as [|x l IH]; [done|]. intros [->|Hin] Hp; cbn.
  - rewrite Hp. pose proof (List.filter_length_le f l). lia.
  - specialize (IH Hin Hp). destruct (f x); cbn; lia.
Qed.

(** X17.  [retryAfter] is enough.  When a valid call is rejected on a
    window that holds no more than [limit] entries (all stamped with
    non-negative instants), the [retryAfter] it returns is positive, and
    the same call made [retryAfter] ms later, nothing else having
    happened, is admitted. *)
Theorem retryAfter_suffices luaRandom luaRandom' identifier options w res w1 r :
  let limit := RateLimit.limit options in
  let window := RateLimit.window options in
  let key := "ratelimit:" +:+ RateLimit.key options +:+ ":" +:+ identifier in
  let now := clock (w_env w) in
  let zs := zset_at now (store (w_env w)) key in
  identifier <> ""%string ->
  RateLimit.key options <> ""%string ->
  1 <= limit ->
  1 <= window ->
  redisClient (w_env w) = true ->
  holds_string now (store (w_env w)) key = false ->
  (forall p, In p zs -> 0 <= p.2) ->
  Z.of_nat (length (Redis.zkeep 0 (now - window * 1000) zs)) <= limit ->
  RateLimit.checkRateLimit luaRandom identifier options w = (Return res, w1) ->
  RateLimit.allowed res = false ->
  RateLimit.retryAfter res = Some r ->
  0 < r /\
  exists res' w2,
    RateLimit.checkRateLimit luaRandom' identifier options (set_clock (now + r) w1)
      = (Return res', w2) /\
    RateLimit.allowed res' = true.
Proof.
  cbv zeta. intros Hid Hkey Hlim Hwin Hready Hty Hnn Hfull Hrun Hrej Hr.
  set (key := "ratelimit:" +:+ RateLimit.key options +:+ ":" +:+ identifier) in *.
  set (now := clock (w_env w)) in *.
  set (ws := now - RateLimit.window options * 1000) in *.
  set (kept := Redis.zkeep 0 ws (zset_at now (store (w_env w)) key)) in *.
  (* the call was rejected: the window is full *)
  destruct (Z_lt_le_dec (Z.of_nat (length kept)) (RateLimit.limit options)) as [Hlt|Hge].
  { destruct (checkRateLimit_admits luaRandom identifier options w
                Hid Hkey Hlim Hwin Hready Hty Hlt) as (w' & Hrun' & _).
    rewrite Hrun in Hrun'. injection Hrun' as -> _. done. }
  destruct (checkRateLimit_rejects luaRandom identifier options w
              Hid Hkey Hlim Hwin Hready Hty Hge) as (w' & Hrun' & _).
  fold key now ws kept in Hrun'.
  rewrite Hrun in Hrun'. injection Hrun' as Hres _.
  destruct (zfirst_is_Some kept) as [[m oldest] Hf].
  { intros E. rewrite E in Hge. cbn in Hge. lia. }
  rewrite Hf in Hres. rewrite Hres in Hr. cbn [RateLimit.retryAfter] in Hr.
  pose proof (zfirst_In _ _ Hf) as Hin.
  apply zkeep_In in Hin as Hin'. destruct Hin' as [Hin' Hrange].
  pose proof (Hnn _ Hin') as Hpos. cbn [snd] in Hpos, Hrange.
  assert (r = oldest + RateLimit.window options * 1000 - now) as Hrval
    by (injection Hr as <-; unfold ws in Hrange; lia).
  split; [unfold ws in Hrange; lia|].
  (* the store after the rejected call *)
  assert (exists zs ex, Redis.live now (store (w_env w)) key
                        = Some (Redis.Entry (Redis.VZSet zs) ex) /\
                        zset_at now (store (w_env w)) key = zs) as (zs & ex & Hl & Hzs).
  { unfold holds_string in Hty. unfold kept, zset_at in Hin.
    destruct (Redis.live now (store (w_env w)) key) as [[[s|zs] ex]|] eqn:Hl;
      [done| |done].
    exists zs, ex. split; [done|]. unfold zset_at. by rewrite Hl. }
  pose proof (rateLimit_script_present luaRandom now key now ws
                (RateLimit.limit options) (RateLimit.window options) Hwin
                (store (w_env w)) zs ex Hl) as Hscript.
  cbv zeta in Hscript. rewrite <- Hzs in Hscript. fold kept in Hscript.
  assert ((Z.of_nat (length kept) <? RateLimit.limit options) = false) as Hb
    by (by apply Z.ltb_ge).
  rewrite Hb in Hscript.
  pose proof (live_not_expired _ _ _ _ Hl) as Hex.
  assert (kept <> []) as Hne by (intros E; by rewrite E in Hin).
  assert (match kept with
          | [] => delete key (store (w_env w))
          | _ :: _ => <[key := Redis.Entry (Redis.VZSet kept) ex]> (store (w_env w))
          end = <[key := Redis.Entry (Redis.VZSet kept) ex]> (store (w_env w))) as Hd1
    by (by destruct kept).
  rewrite Hd1 in Hscript.
  assert (holds_string now (<[key := Redis.Entry (Redis.VZSet kept) ex]> (store (w_env w)))
            key = false) as Hty1.
  { unfold holds_string. by rewrite live_insert_eq. }
  destruct (checkRateLimit_via_script luaRandom identifier options w 0 _ _
              Hid Hkey Hlim Hwin Hready Hty Hscript Hty1)
    as (res0 & w0 & Hrun0 & _ & Hst & _ & Hcl).
  rewrite Hrun in Hrun0. injection Hrun0 as <- <-.
  (* the call made [r] ms later *)
  set (t' := now + r).
  set (w1' := set_clock t' w1).
  assert (store (w_env w1') = store (w_env w1)) as Hs1 by done.
  assert (clock (w_env w1') = t') as Hc1 by done.
  assert (Redis.live t' (store (w_env w1)) key
          = if Redis.expired t' (Redis.Entry (Redis.VZSet kept) ex) then None
            else Some (Redis.Entry (Redis.VZSet kept) ex)) as Hl'.
  { rewrite Hst. unfold Redis.live. by rewrite lookup_insert_eq. }
  assert (holds_string (clock (w_env w1')) (store (w_env w1')) key = false) as Hty'.
  { rewrite Hs1, Hc1. unfold holds_string. rewrite Hl'.
    destruct (Redis.expired t' _); reflexivity. }
  destruct (checkRateLimit_admits luaRandom' identifier options w1'
              Hid Hkey Hlim Hwin Hcl Hty') as (w2 & Hrun2 & _).
  { fold key. rewrite Hs1, Hc1. unfold zset_at. rewrite Hl'.
    destruct (Redis.expired t' _); [cbn; lia|].
    assert (length (Redis.zkeep 0 (t' - RateLimit.window options * 1000) kept)
            < length kept)%nat; [|lia].
    unfold Redis.zkeep. apply (filter_length_lt _ _ (m, oldest)); [done|].
    apply negb_false_iff. unfold Redis.in_range. cbn [snd].
    apply andb_true_iff. split; apply Z.leb_le; unfold t'; lia. }
  eexists _, w2. split; [exact Hrun2|]. done.
Qed.

(** Scenario A continued: the third call is rejected with 800 ms to
    wait; 800 ms later the call is admitted. *)
Lemma retryAfter_suffices_witness :
  let zs := [("1700000000000-0.1"%string, 1700000000000);
             ("1700000000100-0.2"%string, 1700000000100)] in
  let w := init_world (window_store zs 1700000001100) 1700000000200 in
  let options := {| RateLimit.limit := 2; RateLimit.window := 1;
                    RateLimit.key := "api" |} in
  let w1 := (RateLimit.checkRateLimit "0.3" "x" options w).2 in
  0 < 800 /\
  exists res' w2,
    RateLimit.checkRateLimit "0.4" "x" options (set_clock (1700000000200 + 800) w1)
      = (Return res', w2) /\
    RateLimit.allowed res' = true.
Proof.
  intros zs w options w1.
  apply (retryAfter_suffices "0.3" "0.4" "x" options w
           {| RateLimit.allowed := false; RateLimit.remaining := 0;
              RateLimit.resetAt := 1700000001200; RateLimit.retryAfter := Some 800 |}
           w1 800).
  - done.
  - done.
  - vm_compute. discriminate.
  - vm_compute. discriminate.
  - reflexivity.
  - reflexivity.
  - intros p Hp. vm_compute in Hp.
    destruct Hp as [<-|[<-|[]]]; vm_compute; discriminate.
  - vm_compute. discriminate.
  - reflexivity.
  - reflexivity.
  - reflexivity.
Defined.

(** ** Rejections leave no trace in the window *)

Lemma zkeep_twice ws ws' zs :
  ws <= ws' -> Redis.zkeep 0 ws' (Redis.zkeep 0 ws zs) = Redis.zkeep 0 ws' zs.
Proof.
  intros Hle. unfold Redis.zkeep. induction zs as [|p zs IH]; [done|]. cbn.
  destruct (negb (Redis.in_range 0 ws p)) eqn:E; cbn; rewrite IH; [done|].
  destruct (negb (Redis.in_range 0 ws' p)) eqn:E'; [|done].
  apply negb_false_iff in E. apply negb_true_iff in E'.
  unfold Redis.in_range in *. apply andb_true_iff in E as [E1 E2].
  apply Z.leb_le in E2. rewrite E1 in E'. cbn in E'. apply Z.leb_gt in E'. lia.
Qed.

(** The result of a valid call is a function of the clock and of the
    entries that pruning keeps. *)
Lemma checkRateLimit_result_by_kept luaRandom luaRandom' identifier options v v' :
  let key := "ratelimit:" +:+ RateLimit.key options +:+ ":" +:+ identifier in
  let kept (u : world) :=
    Redis.zkeep 0 (clock (w_env u) - RateLimit.window options * 1000)
      (zset_at (clock (w_env u)) (store (w_env u)) key) in
  identifier <> ""%string ->
  RateLimit.key options <> ""%string ->
  1 <= RateLimit.limit options ->
  1 <= RateLimit.window options ->
  redisClient (w_env v) = true -> redisClient (w_env v') = true ->
  holds_string (clock (w_env v)) (store (w_env v)) key = false ->
  holds_string (clock (w_env v')) (store (w_env v')) key = false ->
  clock (w_env v) = clock (w_env v') ->
  kept v = kept v' ->
  (RateLimit.checkRateLimit luaRandom identifier options v).1
  = (RateLimit.checkRateLimit luaRandom' identifier options v').1.
Proof.
  cbv zeta beta. intros Hid Hkey Hlim Hwin Hr Hr' Hty Hty' Hck Hk.
  set (k := Redis.zkeep 0 (clock (w_env v') - RateLimit.window options * 1000) _) in Hk.
  destruct (Z_lt_le_dec (Z.of_nat (length k)) (RateLimit.limit options)) as [Hlt|Hge].
  - destruct (checkRateLimit_admits luaRandom' identifier options v'
                Hid Hkey Hlim Hwin Hr' Hty' Hlt) as (u' & -> & _).
    rewrite <- Hk in Hlt.
    destruct (checkRateLimit_admits luaRandom identifier options v
                Hid Hkey Hlim Hwin Hr Hty Hlt) as (u & -> & _).
    cbn [fst]. fold k. by rewrite Hk, Hck.
  - destruct (checkRateLimit_rejects luaRandom' identifier options v'
                Hid Hkey Hlim Hwin Hr' Hty' Hge) as (u' & -> & _).
    rewrite <- Hk in Hge.
    destruct (checkRateLimit_rejects luaRandom identifier options v
                Hid Hkey Hlim Hwin Hr Hty Hge) as (u & -> & _).
    cbn [fst]. fold k. by rewrite Hk, Hck.
Qed.

(** X18.  A rejected call does not count.  After a valid call was
    rejected, every later call for the same identifier and options gets
    the result it would have got had the rejected call never been made:
    being refused neither uses up the limit nor delays the moment the
    caller is admitted again. *)
Theorem rejected_call_is_free luaRandom luaRandom' identifier options w res w1 t :
  let key := "ratelimit:" +:+ RateLimit.key options +:+ ":" +:+ identifier in
  let now := clock (w_env w) in
  identifier <> ""%string ->
  RateLimit.key options <> ""%string ->
  1 <= RateLimit.limit options ->
  1 <= RateLimit.window options ->
  redisClient (w_env w) = true ->
  holds_string now (store (w_env w)) key = false ->
  RateLimit.checkRateLimit luaRandom identifier options w = (Return res, w1) ->
  RateLimit.allowed res = false ->
  now <= t ->
  (RateLimit.checkRateLimit luaRandom' identifier options (set_clock t w1)).1
  = (RateLimit.checkRateLimit luaRandom' identifier options (set_clock t w)).1.
Proof.
  cbv zeta. intros Hid Hkey Hlim Hwin Hready Hty Hrun Hrej Ht.
  set (key := "ratelimit:" +:+ RateLimit.key options +:+ ":" +:+ identifier) in *.
  set (now := clock (w_env w)) in *.
  set (ws := now - RateLimit.window options * 1000).
  set (kept := Redis.zkeep 0 ws (zset_at now (store (w_env w)) key)).
  destruct (Z_lt_le_dec (Z.of_nat (length kept)) (RateLimit.limit options)) as [Hlt|Hge].
  { destruct (checkRateLimit_admits luaRandom identifier options w
                Hid Hkey Hlim Hwin Hready Hty Hlt) as (w' & Hrun' & _).
    rewrite Hrun in Hrun'. injection Hrun' as -> _. done. }
  assert (kept <> []) as Hne.
  { intros E. rewrite E in Hge. cbn in Hge. lia. }
  assert (exists zs ex, Redis.live now (store (w_env w)) key
                        = Some (Redis.Entry (Redis.VZSet zs) ex) /\
                        zset_at now (store (w_env w)) key = zs) as (zs & ex & Hl & Hzs).
  { unfold holds_string in Hty. unfold kept, zset_at in Hne.
    destruct (Redis.live now (store (w_env w)) key) as [[[s|zs] ex]|] eqn:Hl;
      [done| |done].
    exists zs, ex. split; [done|]. unfold zset_at. by rewrite Hl. }
  pose proof (rateLimit_script_present luaRandom now key now ws
                (RateLimit.limit options) (RateLimit.window options) Hwin
                (store (w_env w)) zs ex Hl) as Hscript.
  cbv zeta in Hscript. rewrite <- Hzs in Hscript. fold kept in Hscript.
  assert ((Z.of_nat (length kept) <? RateLimit.limit options) = false) as Hb
    by (by apply Z.ltb_ge).
  rewrite Hb in Hscript.
  pose proof (live_not_expired _ _ _ _ Hl) as Hex.
  assert (match kept with
          | [] => delete key (store (w_env w))
          | _ :: _ => <[key := Redis.Entry (Redis.VZSet kept) ex]> (store (w_env w))
          end = <[key := Redis.Entry (Redis.VZSet kept) ex]> (store (w_env w))) as Hd1
    by (by destruct kept).
  rewrite Hd1 in Hscript.
  assert (holds_string now (<[key := Redis.Entry (Redis.VZSet kept) ex]> (store (w_env w)))
            key = false) as Hty1.
  { unfold holds_string. by rewrite live_insert_eq. }
  destruct (checkRateLimit_via_script luaRandom identifier options w 0 _ _
              Hid Hkey Hlim Hwin Hready Hty Hscript Hty1)
    as (res0 & w0 & Hrun0 & _ & Hst & _ & Hcl).
  rewrite Hrun in Hrun0. injection Hrun0 as <- <-.
  (* what a call at [t] sees, with and without the rejected call *)
  pose proof (live_lookup _ _ _ _ Hl) as Hraw.
  assert (Redis.live t (store (w_env w)) key
          = if Redis.expired t (Redis.Entry (Redis.VZSet zs) ex) then None
            else Some (Redis.Entry (Redis.VZSet zs) ex)) as Hl0.
  { unfold Redis.live. by rewrite Hraw. }
  assert (Redis.live t (store (w_env w1)) key
          = if Redis.expired t (Redis.Entry (Redis.VZSet zs) ex) then None
            else Some (Redis.Entry (Redis.VZSet kept) ex)) as Hl1.
  { rewrite Hst. unfold Redis.live. by rewrite lookup_insert_eq. }
  apply checkRateLimit_result_by_kept; try done.
  - unfold holds_string. cbn [set_clock w_env clock store]. fold key. rewrite Hl1.
    destruct (Redis.expired t _); reflexivity.
  - unfold holds_string. cbn [set_clock w_env clock store]. fold key. rewrite Hl0.
    destruct (Redis.expired t _); reflexivity.
  - cbn [set_clock w_env clock store]. fold key. unfold zset_at. rewrite Hl0, Hl1.
    destruct (Redis.expired t _); [reflexivity|].
    unfold kept. rewrite Hzs. apply zkeep_twice. unfold ws. lia.
Qed.

(** Scenario A continued: with or without the rejected third call, a
    call 900 ms later gets the same answer. *)
Lemma rejected_call_is_free_witness :
  let zs := [("1700000000000-0.1"%string, 1700000000000);
             ("1700000000100-0.2"%string, 1700000000100)] in
  let w := init_world (window_store zs 1700000001100) 1700000000200 in
  let options := {| RateLimit.limit := 2; RateLimit.window := 1;
                    RateLimit.key := "api" |} in
  let w1 := (RateLimit.checkRateLimit "0.3" "x" options w).2 in
  (RateLimit.checkRateLimit "0.4" "x" options (set_clock 1700000001100 w1)).1
  = (RateLimit.checkRateLimit "0.4" "x" options (set_clock 1700000001100 w)).1.
Proof.
  intros zs w options w1.
  apply (rejected_call_is_free "0.3" "0.4" "x" options w
           {| RateLimit.allowed := false; RateLimit.remaining := 0;
              RateLimit.resetAt := 1700000001200; RateLimit.retryAfter := Some 800 |}
           w1 1700000001100).
  - done.
  - done.
  - vm_compute. discriminate.
  - vm_compute. discriminate.
  - reflexivity.
  - reflexivity.
  - reflexivity.
  - reflexivity.
  - vm_compute. discriminate.
Defined.

(** ** What an extension does to the others *)

Lemma extendLock_true_inv key tok ttl w w1 :
  let lockKey := "lock:" +:+ key in
  let now := clock (w_env w) in
  Lock.extendLock key tok ttl w = (Return true, w1) ->
  redisClient (w_env w1) = true /\
  clock (w_env w1) = now /\
  (exists ex, Redis.live now (store (w_env w)) lockKey
              = Some (Redis.Entry (Redis.VString tok) ex)) /\
  store (w_env w1) =
    if ttl <=? 0 then delete lockKey (store (w_env w))
    else <[lockKey := Redis.Entry (Redis.VString tok) (Some (now + ttl))]>
           (store (w_env w)).
Proof.
  cbv zeta. unfold Lock.extendLock, mbind, M_bind, getCacheClient.
  destruct (redisClient (w_env w)) eqn:Hr; [|intros H; discriminate H].
  unfold send, Lock.extend_script, Redis.bind, Redis.ret, Redis.get.
  destruct (Redis.live _ _ _) as [[[s|zs] ex]|] eqn:Hl.
  - destruct (decide (Some s = Some tok)) as [[= ->]|Hne].
    + unfold Redis.pexpire. rewrite Hl.
      destruct (ttl <=? 0); cbn; intros [= <-]; cbn; eauto.
    + cbn. intros H. discriminate H.
  - cbn. intros H. discriminate H.
  - destruct (decide (None = Some tok)) as [?|_]; [done|].
    cbn. intros H. discriminate H.
Qed.

(** X19.  What a successful extension means for everybody else.  When
    [extendLock] with [ttl'] returned true at instant [now]: (a) for
    [ttl' >= 1] the key is the caller's up to [now + ttl'], whatever
    the earlier expiry was: a valid call of [acquireLock] whose last
    attempt comes no later returns null; (b) for [ttl' <= 0] the
    extension has removed the key, as a release would: the next valid
    call of [acquireLock] is granted at its first request. *)
Theorem extendLock_effect key tok ttl' w w1 random36' options' t :
  let now := clock (w_env w) in
  let retries' := or_default (Lock.retries options') 0 in
  let delay' := timer_delay (or_default (Lock.retryDelay options') 100) in
  Lock.extendLock key tok ttl' w = (Return true, w1) ->
  key <> ""%string ->
  1 <= or_default (Lock.ttl options') 10000 ->
  0 <= retries' ->
  now <= t ->
  (1 <= ttl' -> t + retries' * delay' <= now + ttl' ->
   exists w2,
     Lock.acquireLock random36' key options' (set_clock t w1) = (Return None, w2) /\
     store (w_env w2) = store (w_env w1)) /\
  (ttl' <= 0 ->
   store (w_env w1) = delete ("lock:" +:+ key) (store (w_env w)) /\
   exists w2,
     Lock.acquireLock random36' key options' (set_clock t w1)
       = (Return (Some (dec t +:+ "-" +:+ substring_from 2 random36')), w2)).
Proof.
  cbv zeta. intros Hrun Hkey Httl Hr Ht.
  destruct (extendLock_true_inv _ _ _ _ _ Hrun) as (Hready & Hck & [ex Hl] & Hst).
  split.
  - intros Hpos Hlast.
    destruct (ttl' <=? 0) eqn:E; [apply Z.leb_le in E; lia|].
    destruct (acquireLock_run random36' key options' (set_clock t w1) Hkey Hready Httl Hr)
      as (j & ok & w2 & Hrun2 & Hj & _ & Hck2 & _ & Hres).
    cbn [set_clock w_env clock store] in *.
    destruct ok.
    + exfalso. destruct Hres as [Hfree _]. rewrite Hst, live_held in Hfree.
      destruct (_ <? clock (w_env w2)) eqn:E2; [|done].
      apply Z.ltb_lt in E2.
      pose proof (timer_delay_pos (or_default (Lock.retryDelay options') 100)). nia.
    + exists w2. split; [done|]. by destruct Hres as (_ & _ & ->).
  - intros Hneg.
    destruct (ttl' <=? 0) eqn:E; [|apply Z.leb_gt in E; lia].
    split; [done|].
    rewrite (acquireLock_free random36' key options' (set_clock t w1) Hkey Hready Httl Hr).
    + eexists. reflexivity.
    + cbn [set_clock w_env clock store]. rewrite Hst.
      unfold Redis.live. by rewrite lookup_delete_eq.
Qed.

(** A lock of 1000 ms taken at 1700000000000 and extended by 5000 ms at
    1700000000500: a caller at 1700000003000, past the first expiry,
    still gets null; had the holder extended by 0 ms instead, the lock
    would be gone and the caller served. *)
Lemma extendLock_effect_witness :
  let w := init_world (held_store "1700000000000-4fzyo82mvyr" 1700000001000)
             1700000000500 in
  let options' := {| Lock.ttl := Some 1000; Lock.retries := Some 2;
                     Lock.retryDelay := Some 100 |} in
  (exists w2,
     Lock.acquireLock "0.9xk" "res" options'
       (set_clock 1700000003000
          (Lock.extendLock "res" "1700000000000-4fzyo82mvyr" 5000 w).2)
     = (Return None, w2) /\
     store (w_env w2)
     = store (w_env (Lock.extendLock "res" "1700000000000-4fzyo82mvyr" 5000 w).2)) /\
  (store (w_env (Lock.extendLock "res" "1700000000000-4fzyo82mvyr" 0 w).2)
   = delete "lock:res"%string (store (w_env w)) /\
   exists w2,
     Lock.acquireLock "0.9xk" "res" options'
       (set_clock 1700000003000
          (Lock.extendLock "res" "1700000000000-4fzyo82mvyr" 0 w).2)
     = (Return (Some (dec 1700000003000 +:+ "-" +:+ substring_from 2 "0.9xk")), w2)).
Proof.
  intros w options'. split.
  - apply (proj1 (extendLock_effect "res" "1700000000000-4fzyo82mvyr" 5000 w
                    (Lock.extendLock "res" "1700000000000-4fzyo82mvyr" 5000 w).2
                    "0.9xk" options' 1700000003000
                    eq_refl ltac:(done) ltac:(vm_compute; discriminate)
                    ltac:(vm_compute; discriminate)
                    ltac:(vm_compute; discriminate))).
    + lia.
    + vm_compute. discriminate.
  - apply (proj2 (extendLock_effect "res" "1700000000000-4fzyo82mvyr" 0 w
                    (Lock.extendLock "res" "1700000000000-4fzyo82mvyr" 0 w).2
                    "0.9xk" options' 1700000003000
                    eq_refl ltac:(done) ltac:(vm_compute; discriminate)
                    ltac:(vm_compute; discriminate)
                    ltac:(vm_compute; discriminate))).
    lia.
Defined.

(** ** A lease among other clients *)

(** X20.  A granted lock among any number of other clients.  After
    [acquireLock] was granted, let any sequence of requests of any
    clients reach the store, with time passing in between: attempts to
    acquire the same key, releases and extensions presenting other
    tokens, rate-limit scripts, on this key or on others; only a
    release or an extension with the holder's token and a plain DEL of
    the key are excluded.  As long as the clock has not passed the
    expiry, (a) a valid call of [acquireLock] on the key whose last
    attempt comes no later than the expiry returns null, (b) the
    holder's [releaseLock] returns true and removes the key, and (c) the
    holder's [extendLock] returns true. *)
Theorem lease_under_interleaving random36 key options w tok w1 acts
    random36' options' ttl' :
  let lockKey := "lock:" +:+ key in
  let expiry := clock (w_env w1) + or_default (Lock.ttl options) 10000 in
  let s := history acts (store (w_env w1), clock (w_env w1)) in
  let w2 := set_clock s.2 (set_store s.1 w1) in
  let retries' := or_default (Lock.retries options') 0 in
  let delay' := timer_delay (or_default (Lock.retryDelay options') 100) in
  Lock.acquireLock random36 key options w = (Return (Some tok), w1) ->
  forallb (fun a => negb (ends_lease lockKey tok a)) acts = true ->
  s.2 <= expiry ->
  1 <= or_default (Lock.ttl options') 10000 ->
  0 <= retries' ->
  s.2 + retries' * delay' <= expiry ->
  (exists w3,
     Lock.acquireLock random36' key options' w2 = (Return None, w3) /\
     store (w_env w3) = s.1) /\
  (exists w3,
     Lock.releaseLock key tok w2 = (Return true, w3) /\
     store (w_env w3) = delete lockKey s.1) /\
  (exists w3, Lock.extendLock key tok ttl' w2 = (Return true, w3)).
Proof.
  cbv zeta. intros Hrun Hacts Hin Httl' Hr' Hlast.
  destruct (acquireLock_grant_state _ _ _ _ _ _ Hrun) as (Hkey & Httl & Hready & Hst).
  set (expiry := clock (w_env w1) + or_default (Lock.ttl options) 10000) in *.
  set (s0 := (store (w_env w1), clock (w_env w1))).
  assert (lease ("lock:" +:+ key) tok expiry s0) as Hs0.
  { unfold lease, s0. cbn [fst snd]. rewrite Hst, live_held.
    destruct (_ <? _) eqn:E; [|done]. apply Z.ltb_lt in E. unfold expiry in E. lia. }
  destruct (lease_exclusive ("lock:" +:+ key) tok expiry acts s0 Hs0 Hacts Hin)
    as [Hlease _].
  fold s0 in Hin, Hlast. set (s := history acts s0) in *.
  set (w2 := set_clock s.2 (set_store s.1 w1)).
  assert (redisClient (w_env w2) = true) as Hready2 by done.
  assert (store (w_env w2) = s.1) as Hs2 by done.
  assert (clock (w_env w2) = s.2) as Hc2 by done.
  unfold lease in Hlease.
  assert (holds_zset (clock (w_env w2)) (store (w_env w2)) ("lock:" +:+ key) = false)
    as Hty by (unfold holds_zset; by rewrite Hs2, Hc2, Hlease).
  assert (holder (clock (w_env w2)) (store (w_env w2)) ("lock:" +:+ key) = Some tok)
    as Hh by (unfold holder; by rewrite Hs2, Hc2, Hlease).
  split; [|split].
  - destruct (acquireLock_run random36' key options' w2 Hkey Hready2 Httl' Hr')
      as (j & ok & w3 & Hrun3 & Hj & _ & Hck3 & _ & Hres).
    rewrite Hc2 in Hck3.
    destruct ok.
    + exfalso. destruct Hres as [Hfree _]. rewrite Hs2 in Hfree.
      pose proof (live_lookup _ _ _ _ Hlease) as Hraw.
      unfold Redis.live in Hfree. rewrite Hraw in Hfree.
      unfold Redis.expired in Hfree. cbn [Redis.e_expiry] in Hfree.
      destruct (expiry <? clock (w_env w3)) eqn:E; [|done].
      apply Z.ltb_lt in E.
      pose proof (timer_delay_pos (or_default (Lock.retryDelay options') 100)). nia.
    + exists w3. split; [done|]. destruct Hres as (_ & _ & ->). done.
  - rewrite (releaseLock_match key tok w2 Hready2 Hty Hh).
    eexists. split; [reflexivity|]. done.
  - destruct (extendLock_match key tok w2 Hready2 Hty ttl' Hh) as (w3 & -> & _).
    by exists w3.
Qed.

(** A lock of 1000 ms taken at 1700000000000; then another client asks
    for the key, 300 ms pass, a stranger releases with a wrong token, a
    rate-limit script is sent to the key, 200 ms pass.  The lock is
    still the holder's. *)
Lemma lease_under_interleaving_witness :
  let w := init_world ∅ 1700000000000 in
  let options := {| Lock.ttl := Some 1000; Lock.retries := None;
                    Lock.retryDelay := None |} in
  let options' := {| Lock.ttl := Some 1000; Lock.retries := Some 2;
                     Lock.retryDelay := Some 100 |} in
  let w1 := (Lock.acquireLock "0.4fzyo82mvyr" "res" options w).2 in
  let acts := [Request "" (SET_PX_NX "lock:res" "1700000000100-zzz" 5000);
               Tick 300;
               Request "" (EVAL_release "lock:res" "1700000000100-zzz");
               Request "0.5" (EVAL_rateLimit "lock:res" 1700000000300
                                1699999999300 5 1);
               Tick 200] in
  let s := history acts (store (w_env w1), clock (w_env w1)) in
  let w2 := set_clock s.2 (set_store s.1 w1) in
  (exists w3,
     Lock.acquireLock "0.9xk" "res" options' w2 = (Return None, w3) /\
     store (w_env w3) = s.1) /\
  (exists w3,
     Lock.releaseLock "res" "1700000000000-4fzyo82mvyr" w2 = (Return true, w3) /\
     store (w_env w3) = delete "lock:res"%string s.1) /\
  (exists w3,
     Lock.extendLock "res" "1700000000000-4fzyo82mvyr" 2000 w2 = (Return true, w3)).
Proof.
  intros w options options' w1 acts s w2.
  apply (lease_under_interleaving "0.4fzyo82mvyr" "res" options w
           "1700000000000-4fzyo82mvyr" w1 acts "0.9xk" options' 2000).
  - reflexivity.
  - reflexivity.
  - vm_compute. discriminate.
  - vm_compute. discriminate.
  - vm_compute. discriminate.
  - vm_compute. discriminate.
Defined.
